(** * fabric-sdk-node: the event hub and the policy decoder

    A shallow embedding of [fabric-client/lib/EventHub.js] and the
    properties of its registries, its connection handling and its three
    dispatch passes.

    Modelling conventions.
    - JavaScript functions handed to the hub (onEvent, onError) are opaque
      values named by a [Callback] number.  Calling one appends an [Effect]
      to the trace of the operation.  Callbacks return normally and do not
      call back into the hub.
    - The grpc stream, the timer and the signing identity are external
      collaborators: what the hub does to them is an [Effect] of the trace,
      what the hub reads from them (isPaused, getConnectivityState) is a
      [World] argument of the operation.
    - An exception is a [Throw] result; the hub state reached when it was
      raised is kept, as JavaScript keeps every mutation made before a throw.
    - Strings are byte strings. *)

From Stdlib Require Import ZArith Lia Ascii String List Bool.
From stdpp Require Import base option list strings gmap fin_maps.

Local Open Scope string_scope.
Local Open Scope list_scope.
Local Open Scope Z_scope.

(** ** The regular expressions of event name filters

    [new RegExp(source)] and [RegExp.prototype.test] are built into the
    language.  This module gives them for the fragment of the pattern
    syntax made of literal characters, [.], identity escapes of syntax
    characters, the assertions [^] and [$], and the quantifiers [*], [+]
    and [?] on a single character or [.].  No flag is set, as in
    [ChainCodeCBE], so [^] and [$] are the ends of the input and [test]
    always starts at index 0. *)
Module JsRegExp.

Inductive atom : Type :=
| AChar (c : ascii)
| ADot.

Inductive quant : Type :=
| QOne
| QStar
| QPlus
| QOpt.

Inductive term : Type :=
| TAtom (a : atom) (q : quant)
| TBol
| TEol.

Definition pattern : Type := list term.

(** SyntaxCharacter of the ECMAScript pattern grammar. *)
Definition syntax_chars : list ascii :=
  list_ascii_of_string "^$\.*+?()[]{}|".

Definition is_syntax_char (c : ascii) : bool :=
  bool_decide (c ∈ syntax_chars).

(** Reads the quantifier that follows an atom, if any. *)
Definition read_quant (s : list ascii) : quant * list ascii :=
  match s with
  | "*"%char :: r => (QStar, r)
  | "+"%char :: r => (QPlus, r)
  | "?"%char :: r => (QOpt, r)
  | _ => (QOne, s)
  end.

(** One atom at the head of the source: [Some (a, rest)], or [None] when the
    head is no atom of the fragment. *)
Definition read_atom (c : ascii) (r : list ascii) : option (atom * list ascii) :=
  if bool_decide (c = "."%char) then Some (ADot, r)
  else if bool_decide (c = "\"%char) then
    match r with
    | e :: r' => if is_syntax_char e then Some (AChar e, r') else None
    | [] => None
    end
  else if is_syntax_char c then None
  else Some (AChar c, r).

(** The parser runs on a fuel equal to the length of the source: every step
    consumes at least one character. *)
Fixpoint parse_fuel (fuel : nat) (s : list ascii) : option pattern :=
  match s with
  | [] => Some []
  | c :: r =>
      match fuel with
      | O => None
      | S fuel' =>
          if bool_decide (c = "^"%char) then cons TBol <$> parse_fuel fuel' r
          else if bool_decide (c = "$"%char) then cons TEol <$> parse_fuel fuel' r
          else
            match read_atom c r with
            | None => None
            | Some (a, r1) =>
                let '(q, r2) := read_quant r1 in
                cons (TAtom a q) <$> parse_fuel fuel' r2
            end
      end
  end.

(** [new RegExp(source)] with no flags; [None] when the constructor throws a
    SyntaxError or the source leaves the fragment. *)
Definition RegExp (source : string) : option pattern :=
  let s := list_ascii_of_string source in
  parse_fuel (length s) s.

(** [.] matches every character but a line terminator. *)
Definition is_line_terminator (c : ascii) : bool :=
  bool_decide (c = "010"%char) || bool_decide (c = "013"%char).

Definition atom_matches (a : atom) (c : ascii) : bool :=
  match a with
  | AChar x => bool_decide (c = x)
  | ADot => negb (is_line_terminator c)
  end.

(** Backtracking matcher: does the pattern match a prefix of [s]?  [st] tells
    whether [s] starts at index 0 of the input. *)
Fixpoint match_here (p : pattern) : list ascii → bool → bool :=
  match p with
  | [] => fun _ _ => true
  | t :: p' =>
      let k := match_here p' in
      let star a :=
        fix star (s : list ascii) (st : bool) : bool :=
          match s with
          | c :: s' => atom_matches a c && star s' false
          | [] => false
          end || k s st in
      match t with
      | TBol => fun s st => st && k s st
      | TEol => fun s st => match s with [] => k s st | _ :: _ => false end
      | TAtom a QOne => fun s _ =>
          match s with
          | c :: s' => atom_matches a c && k s' false
          | [] => false
          end
      | TAtom a QOpt => fun s st =>
          match s with
          | c :: s' => atom_matches a c && k s' false
          | [] => false
          end || k s st
      | TAtom a QStar => star a
      | TAtom a QPlus => fun s _ =>
          match s with
          | c :: s' => atom_matches a c && star a s' false
          | [] => false
          end
      end
  end.

(** The match may start at any index of the input. *)
Fixpoint search (p : pattern) (s : list ascii) (st : bool) : bool :=
  match_here p s st ||
  match s with
  | _ :: s' => search p s' false
  | [] => false
  end.

(** [regexp.test(str)]. *)
Definition test (p : pattern) (str : string) : bool :=
  search p (list_ascii_of_string str) true.

(** The pattern of a source made of ordinary characters only. *)
Definition literal (l : list ascii) : pattern :=
  (fun c => TAtom (AChar c) QOne) <$> l.

Definition ordinary (l : list ascii) : Prop :=
  Forall (fun c => is_syntax_char c = false) l.

End JsRegExp.

(** ** Data of the event hub *)
Module Hub.

(** A JavaScript function passed to the hub. *)
Definition Callback : Type := nat.

(** The decoded chaincode event, [caPayload.events]. *)
Record ChaincodeEvent : Type := mkChaincodeEvent {
  chaincode_id : string;
  tx_id : string;
  event_name : string;
  payload : string
}.

(** [payload.header.channel_header]: the header type is the name the block
    decoder gives it, the transaction id a string. *)
Record ChannelHeader : Type := mkChannelHeader {
  ch_type : string;
  ch_tx_id : string
}.

(** One entry of [tx.actions].  [action_events] is what the access path
    [.payload.action.proposal_response_payload.extension.events] reaches;
    [None] when a link of the path is missing. *)
Record TransactionAction : Type := mkTransactionAction {
  action_events : option ChaincodeEvent
}.

(** [payload.data], polymorphic on the header type. *)
Inductive PayloadData : Type :=
| Transaction (actions : list TransactionAction)
| OtherData.

Record Envelope : Type := mkEnvelope {
  channel_header : ChannelHeader;
  data : PayloadData
}.

(** The decoded block.  [transactions_filter] is
    [block.metadata.metadata[TRANSACTIONS_FILTER]], [envelopes] is
    [block.data.data]. *)
Record Block : Type := mkBlock {
  number : Z;
  transactions_filter : list Z;
  envelopes : list Envelope
}.

(** Exceptions.  The messages are those of the source, without the
    quotation marks it puts around parameter names. *)
Inductive Exn : Type :=
| Error (msg : string)
| TypeError (msg : string)
| SyntaxError (msg : string).

(** What an operation of the hub does to the outside, in order. *)
Inductive Effect : Type :=
| CallBlock (cb : Callback) (b : Block)
| CallTx (cb : Callback) (txid : string) (val_code : option string)
| CallCC (cb : Callback) (ev : ChaincodeEvent)
| CallErr (cb : Callback) (err : Exn)
| SetTimeout (conn : nat)
| ClearTimeout (conn : nat)
| OpenStream (conn : nat)
| StreamWrite (conn : nat) (register : bool)
| StreamEnd (conn : nat)
| StreamResume (conn : nat).

(** What the hub reads from the grpc stream during one operation. *)
Record World : Type := mkWorld {
  isPaused : bool;
  connectivityState : Z
}.

(** The chaincode callback entry.  [cbe_id] is the identity of the object:
    the registrant sets are JavaScript [Set]s of objects. *)
Record ChainCodeCBE : Type := mkChainCodeCBE {
  cbe_id : nat;
  ccid : string;
  eventNameFilter : JsRegExp.pattern;
  onEvent : Callback;
  onError : option Callback
}.

(** The fields of the [EventHub] object.  A registrant [Set] is the list of
    its elements in insertion order.  [next_conn] counts the streams opened
    so far, [timers] holds the connections whose registration timeout is
    armed, [next_object] counts the callback entries allocated. *)
Record EventHub : Type := mkEventHub {
  chaincodeRegistrants : gmap string (list ChainCodeCBE);
  block_registrant_count : Z;
  blockOnEvents : gmap Z Callback;
  blockOnErrors : gmap Z Callback;
  transactionOnEvents : gmap string Callback;
  transactionOnErrors : gmap string Callback;
  ep : option string;
  stream : option nat;
  connected : bool;
  force_reconnect : bool;
  next_conn : nat;
  timers : list nat;
  next_object : nat
}.

Definition set_chaincodeRegistrants (v : gmap string (list ChainCodeCBE)) (h : EventHub) : EventHub :=
  mkEventHub v (block_registrant_count h) (blockOnEvents h) (blockOnErrors h)
    (transactionOnEvents h) (transactionOnErrors h) (ep h) (stream h)
    (connected h) (force_reconnect h) (next_conn h) (timers h) (next_object h).

Definition set_block_registrant_count (v : Z) (h : EventHub) : EventHub :=
  mkEventHub (chaincodeRegistrants h) v (blockOnEvents h) (blockOnErrors h)
    (transactionOnEvents h) (transactionOnErrors h) (ep h) (stream h)
    (connected h) (force_reconnect h) (next_conn h) (timers h) (next_object h).

Definition set_blockOnEvents (v : gmap Z Callback) (h : EventHub) : EventHub :=
  mkEventHub (chaincodeRegistrants h) (block_registrant_count h) v (blockOnErrors h)
    (transactionOnEvents h) (transactionOnErrors h) (ep h) (stream h)
    (connected h) (force_reconnect h) (next_conn h) (timers h) (next_object h).

Definition set_blockOnErrors (v : gmap Z Callback) (h : EventHub) : EventHub :=
  mkEventHub (chaincodeRegistrants h) (block_registrant_count h) (blockOnEvents h) v
    (transactionOnEvents h) (transactionOnErrors h) (ep h) (stream h)
    (connected h) (force_reconnect h) (next_conn h) (timers h) (next_object h).

Definition set_transactionOnEvents (v : gmap string Callback) (h : EventHub) : EventHub :=
  mkEventHub (chaincodeRegistrants h) (block_registrant_count h) (blockOnEvents h)
    (blockOnErrors h) v (transactionOnErrors h) (ep h) (stream h)
    (connected h) (force_reconnect h) (next_conn h) (timers h) (next_object h).

Definition set_transactionOnErrors (v : gmap string Callback) (h : EventHub) : EventHub :=
  mkEventHub (chaincodeRegistrants h) (block_registrant_count h) (blockOnEvents h)
    (blockOnErrors h) (transactionOnEvents h) v (ep h) (stream h)
    (connected h) (force_reconnect h) (next_conn h) (timers h) (next_object h).

Definition set_ep (v : option string) (h : EventHub) : EventHub :=
  mkEventHub (chaincodeRegistrants h) (block_registrant_count h) (blockOnEvents h)
    (blockOnErrors h) (transactionOnEvents h) (transactionOnErrors h) v (stream h)
    (connected h) (force_reconnect h) (next_conn h) (timers h) (next_object h).

Definition set_connected (v : bool) (h : EventHub) : EventHub :=
  mkEventHub (chaincodeRegistrants h) (block_registrant_count h) (blockOnEvents h)
    (blockOnErrors h) (transactionOnEvents h) (transactionOnErrors h) (ep h) (stream h)
    v (force_reconnect h) (next_conn h) (timers h) (next_object h).

(** [this.stream = this._client.chat()]: a new stream, numbered by
    [next_conn]. *)
Definition open_stream (h : EventHub) : EventHub :=
  mkEventHub (chaincodeRegistrants h) (block_registrant_count h) (blockOnEvents h)
    (blockOnErrors h) (transactionOnEvents h) (transactionOnErrors h) (ep h)
    (Some (next_conn h)) (connected h) (force_reconnect h) (S (next_conn h))
    (timers h) (next_object h).

Definition set_timers (v : list nat) (h : EventHub) : EventHub :=
  mkEventHub (chaincodeRegistrants h) (block_registrant_count h) (blockOnEvents h)
    (blockOnErrors h) (transactionOnEvents h) (transactionOnErrors h) (ep h) (stream h)
    (connected h) (force_reconnect h) (next_conn h) v (next_object h).

Definition set_next_object (v : nat) (h : EventHub) : EventHub :=
  mkEventHub (chaincodeRegistrants h) (block_registrant_count h) (blockOnEvents h)
    (blockOnErrors h) (transactionOnEvents h) (transactionOnErrors h) (ep h) (stream h)
    (connected h) (force_reconnect h) (next_conn h) (timers h) v.

(** ** The monad of hub operations: state, exceptions and a trace *)

Inductive Res (A : Type) : Type :=
| Ok (a : A)
| Throw (e : Exn).
Arguments Ok {A} a.
Arguments Throw {A} e.

Definition M (A : Type) : Type := EventHub → Res A * EventHub * list Effect.

Definition ret {A} (a : A) : M A := fun h => (Ok a, h, []).

Definition bind {A B} (m : M A) (f : A → M B) : M B := fun h =>
  match m h with
  | (Ok a, h1, t1) =>
      match f a h1 with
      | (r, h2, t2) => (r, h2, t1 ++ t2)
      end
  | (Throw e, h1, t1) => (Throw e, h1, t1)
  end.

Definition throw {A} (e : Exn) : M A := fun h => (Throw e, h, []).

(** [try { m } catch (error) { handler }]. *)
Definition try_catch {A} (m : M A) (handler : Exn → M A) : M A := fun h =>
  match m h with
  | (Ok a, h1, t1) => (Ok a, h1, t1)
  | (Throw e, h1, t1) =>
      match handler e h1 with
      | (r, h2, t2) => (r, h2, t1 ++ t2)
      end
  end.

Definition get : M EventHub := fun h => (Ok h, h, []).
Definition modify (f : EventHub → EventHub) : M unit := fun h => (Ok tt, f h, []).
Definition emit (es : list Effect) : M unit := fun h => (Ok tt, h, es).
Definition when (b : bool) (m : M unit) : M unit := if b then m else ret tt.

#[global] Instance M_ret : MRet M := @ret.
#[global] Instance M_bind : MBind M := fun A B f m => bind m f.

Definition result {A} (x : Res A * EventHub * list Effect) : Res A := x.1.1.
Definition hub_after {A} (x : Res A * EventHub * list Effect) : EventHub := x.1.2.
Definition trace {A} (x : Res A * EventHub * list Effect) : list Effect := x.2.

(** JavaScript numbers are doubles: [n + 1] is exact below 2^53, and
    2^53 + 1 rounds back to 2^53. *)
Definition js_succ (n : Z) : Z := if n <? 2 ^ 53 then n + 1 else n.

Definition shutdown_error : Exn := Error "EventHub has been shutdown".

(** ** The operations of [EventHub] *)

(** [new EventHub(clientContext)], for a client context that passes the
    three checks of the constructor. *)
Definition new_EventHub : EventHub :=
  {| chaincodeRegistrants := ∅;
     block_registrant_count := 1;
     blockOnEvents := ∅;
     blockOnErrors := ∅;
     transactionOnEvents := ∅;
     transactionOnErrors := ∅;
     ep := None;
     stream := None;
     connected := false;
     force_reconnect := true;
     next_conn := 0;
     timers := [];
     next_object := 0 |}.

(** [setPeerAddr(peerUrl, opts)], for a url the [Remote] constructor
    accepts. *)
Definition setPeerAddr (peerUrl : string) : M unit :=
  modify (set_ep (Some peerUrl)).

Definition isconnected (h : EventHub) : bool := connected h.

(** [_sendRegistration(register)]: the signing identity signs, the signed
    event is written to [this.stream]. *)
Definition _sendRegistration (register : bool) : M unit :=
  h ← get;
  match stream h with
  | Some c => emit [StreamWrite c register]
  | None => throw (TypeError "Cannot read property 'write' of null")
  end.

(** The error callbacks of one chaincode registrant set. *)
Definition cc_closer (err : Exn) (cbtable : list ChainCodeCBE) : list Effect :=
  omap (fun cbe => (fun cb => CallErr cb err) <$> onError cbe) cbtable.

(** [_closeAllCallbacks(err)]. *)
Definition _closeAllCallbacks (err : Exn) : M unit :=
  h ← get;
  emit ((fun kv => CallErr kv.2 err) <$> map_to_list (blockOnErrors h));;
  modify (set_blockOnEvents ∅);;
  modify (set_blockOnErrors ∅);;
  emit ((fun kv => CallErr kv.2 err) <$> map_to_list (transactionOnErrors h));;
  modify (set_transactionOnEvents ∅);;
  modify (set_transactionOnErrors ∅);;
  emit (mjoin ((fun kv => cc_closer err kv.2) <$> map_to_list (chaincodeRegistrants h)));;
  modify (set_chaincodeRegistrants ∅).

(** [disconnect()]. *)
Definition disconnect : M unit :=
  modify (set_connected false);;
  _closeAllCallbacks shutdown_error;;
  h ← get;
  match stream h with
  | Some c => _sendRegistration false;; emit [StreamEnd c]
  | None => ret tt
  end.

(** [_connect(force)].  The new stream and its timeout carry the same
    number; the handlers installed on the stream are [on_data], [on_end]
    and [on_error] below, at that number. *)
Definition _connect (force : bool) : M unit :=
  h ← get;
  if negb force && connected h then ret tt
  else
    match ep h with
    | None => throw (Error "Must set peer address before connecting.")
    | Some _ =>
        let c := next_conn h in
        emit [SetTimeout c];;
        modify (set_timers (c :: timers h));;
        modify open_stream;;
        emit [OpenStream c];;
        modify (set_connected true);;
        _sendRegistration true
    end.

(** [connect()]. *)
Definition connect : M unit := _connect false.

(** [_checkConnection(throw_error, force_reconnect)].  Both debug lines
    evaluate [this.ep.getUrl()]. *)
Definition _checkConnection (w : World) (throw_error force_reconnect : bool) : M unit :=
  h ← get;
  match ep h with
  | None => throw (TypeError "Cannot read property 'getUrl' of null")
  | Some _ =>
      (if connected h then ret tt
       else when throw_error
              (throw (Error "The event hub has not been connected to the event source")));;
      when force_reconnect
        (try_catch
           (match stream h with
            | None => throw (TypeError "Cannot read property 'isPaused' of null")
            | Some c =>
                when (isPaused w) (emit [StreamResume c]);;
                when (negb (connectivityState w =? 2)) (_connect true)
            end)
           (fun _ => disconnect;; throw (Error "Event hub is not connected ")))
  end.

(** [x ? true : false] for an optional function argument. *)
Definition truthy {A} (x : option A) : bool :=
  match x with
  | Some _ => true
  | None => false
  end.

(** [new ChainCodeCBE(ccid, eventNameFilter, onEvent, onError)]: compiles
    the filter and allocates the entry. *)
Definition new_ChainCodeCBE (id : string) (eventNameFilter : string)
    (on_event : Callback) (on_error : option Callback) : M ChainCodeCBE :=
  match JsRegExp.RegExp eventNameFilter with
  | None => throw (SyntaxError "Invalid regular expression")
  | Some re =>
      h ← get;
      modify (set_next_object (S (next_object h)));;
      mret (mkChainCodeCBE (next_object h) id re on_event on_error)
  end.

(** [registerChaincodeEvent(ccid, eventname, onEvent, onError)].  A missing
    (or falsy) function argument is [None], a falsy string is the empty
    string. *)
Definition registerChaincodeEvent (w : World) (id eventname : string)
    (on_event on_error : option Callback) : M ChainCodeCBE :=
  if bool_decide (id = "") then throw (Error "Missing ccid parameter")
  else if bool_decide (eventname = "") then throw (Error "Missing eventname parameter")
  else
    match on_event with
    | None => throw (Error "Missing onEvent parameter")
    | Some ev =>
        let have_error_cb := truthy on_error in
        _checkConnection w (negb have_error_cb) false;;
        cbe ← new_ChainCodeCBE id eventname ev on_error;
        h ← get;
        let cbtable := default [] (chaincodeRegistrants h !! id) in
        modify (set_chaincodeRegistrants
                  (<[id := cbtable ++ [cbe]]> (chaincodeRegistrants h)));;
        when have_error_cb (_checkConnection w false (force_reconnect h));;
        mret cbe
    end.

(** [cbtable.delete(cbe)]: removes the object itself. *)
Definition set_delete (cbe : ChainCodeCBE) (cbtable : list ChainCodeCBE) : list ChainCodeCBE :=
  filter (fun x => cbe_id x ≠ cbe_id cbe) cbtable.

(** [unregisterChaincodeEvent(cbe)]. *)
Definition unregisterChaincodeEvent (handle : option ChainCodeCBE) : M unit :=
  match handle with
  | None => throw (Error "Missing cbe parameter")
  | Some cbe =>
      h ← get;
      match chaincodeRegistrants h !! ccid cbe with
      | None => mret tt
      | Some cbtable =>
          let cbtable' := set_delete cbe cbtable in
          if bool_decide (cbtable' = []) then
            modify (set_chaincodeRegistrants (delete (ccid cbe) (chaincodeRegistrants h)))
          else
            modify (set_chaincodeRegistrants
                      (<[ccid cbe := cbtable']> (chaincodeRegistrants h)))
      end
  end.

(** [registerBlockEvent(onEvent, onError)]. *)
Definition registerBlockEvent (w : World) (on_event on_error : option Callback) : M Z :=
  match on_event with
  | None => throw (Error "Missing onEvent parameter")
  | Some ev =>
      let have_error_cb := truthy on_error in
      _checkConnection w (negb have_error_cb) false;;
      h ← get;
      let block_registration_number := block_registrant_count h in
      modify (set_block_registrant_count (js_succ (block_registrant_count h)));;
      modify (fun h => set_blockOnEvents (<[block_registration_number := ev]> (blockOnEvents h)) h);;
      match on_error with
      | Some er =>
          modify (fun h => set_blockOnErrors (<[block_registration_number := er]> (blockOnErrors h)) h);;
          _checkConnection w false (force_reconnect h)
      | None => mret tt
      end;;
      mret block_registration_number
  end.

(** [unregisterBlockEvent(block_registration_number)]; the number 0 is
    falsy. *)
Definition unregisterBlockEvent (block_registration_number : Z) : M unit :=
  if bool_decide (block_registration_number = 0) then
    throw (Error "Missing block_registration_number parameter")
  else
    modify (fun h => set_blockOnEvents (delete block_registration_number (blockOnEvents h)) h);;
    modify (fun h => set_blockOnErrors (delete block_registration_number (blockOnErrors h)) h).

(** [registerTxEvent(txid, onEvent, onError)]. *)
Definition registerTxEvent (w : World) (txid : string)
    (on_event on_error : option Callback) : M unit :=
  if bool_decide (txid = "") then throw (Error "Missing txid parameter")
  else
    match on_event with
    | None => throw (Error "Missing onEvent parameter")
    | Some ev =>
        let have_error_cb := truthy on_error in
        _checkConnection w (negb have_error_cb) false;;
        modify (fun h => set_transactionOnEvents (<[txid := ev]> (transactionOnEvents h)) h);;
        match on_error with
        | Some er =>
            modify (fun h => set_transactionOnErrors (<[txid := er]> (transactionOnErrors h)) h);;
            h ← get;
            _checkConnection w false (force_reconnect h)
        | None => mret tt
        end
    end.

(** [unregisterTxEvent(txid)]. *)
Definition unregisterTxEvent (txid : string) : M unit :=
  if bool_decide (txid = "") then throw (Error "Missing txid parameter")
  else
    modify (fun h => set_transactionOnEvents (delete txid (transactionOnEvents h)) h);;
    modify (fun h => set_transactionOnErrors (delete txid (transactionOnErrors h)) h).

(** ** Dispatch *)

(** A message of the event stream; the block of a block message is given
    as the outcome of [BlockDecoder.decodeBlock(event.block)]. *)
Inductive StreamEvent : Type :=
| EvBlock (decoded : Res Block)
| EvRegister
| EvUnregister
| EvOther.

Section Dispatch.

(** The enumerations [protos.TxValidationCode] of transaction.proto and
    [common.HeaderType] of common.proto, as grpc loads them: the names with
    their numbers, in the order of [Object.keys]. *)
Variable TxValidationCode : list (string * Z).
Variable HeaderType : list (string * Z).

(** The two loops at the head of the file: number to name. *)
Definition invert_enum (enum : list (string * Z)) : gmap Z string :=
  fold_left (fun table kv => <[kv.2 := kv.1]> table) enum ∅.

Definition _validation_codes : gmap Z string := invert_enum TxValidationCode.
Definition _header_types : gmap Z string := invert_enum HeaderType.

(** [convertValidationCode(code)]; [code] is [None] when the index is out
    of the array. *)
Definition convertValidationCode (code : option Z) : option string :=
  c ← code; _validation_codes !! c.

(** [_processBlockOnEvents(block)]. *)
Definition _processBlockOnEvents (h : EventHub) (block : Block) : list Effect :=
  if bool_decide (size (blockOnEvents h) = 0%nat) then []
  else (fun kv => CallBlock kv.2 block) <$> map_to_list (blockOnEvents h).

(** The body of the loop of [_processTxOnEvents] at [index], and the loop
    from [index] on over the envelopes not yet visited. *)
Definition tx_loop_body (h : EventHub) (txStatusCodes : list Z)
    (index : nat) (env : Envelope) : list Effect :=
  let header := channel_header env in
  let val_code := convertValidationCode (txStatusCodes !! index) in
  match transactionOnEvents h !! ch_tx_id header with
  | Some cb => [CallTx cb (ch_tx_id header) val_code]
  | None => []
  end.

Fixpoint tx_loop (h : EventHub) (txStatusCodes : list Z)
    (index : nat) (rest : list Envelope) : list Effect :=
  match rest with
  | [] => []
  | env :: rest' =>
      tx_loop_body h txStatusCodes index env ++ tx_loop h txStatusCodes (S index) rest'
  end.

(** [_processTxOnEvents(block)]. *)
Definition _processTxOnEvents (h : EventHub) (block : Block) : list Effect :=
  if bool_decide (size (transactionOnEvents h) = 0%nat) then []
  else tx_loop h (transactions_filter block) 0 (envelopes block).

(** The chain of property reads from [payload.data] to [caPayload.events];
    [None] when one of them throws a TypeError. *)
Definition read_ccEvent (d : PayloadData) : option ChaincodeEvent :=
  match d with
  | Transaction (a :: _) => action_events a
  | Transaction [] => None
  | OtherData => None
  end.

(** The calls made by [cbtable.forEach] for one chaincode event. *)
Definition cc_notify (ccEvent : ChaincodeEvent) (cbtable : list ChainCodeCBE) : list Effect :=
  (fun cbe => CallCC (onEvent cbe) ccEvent) <$>
  filter (fun cbe => JsRegExp.test (eventNameFilter cbe) (event_name ccEvent) = true) cbtable.

(** How one turn of the loop of [_processChainCodeOnEvents] ends. *)
Inductive Completion : Type :=
| Normal
| Return.

(** The [try] block of the loop for one envelope, with its [catch]: a
    TypeError is logged and the turn ends normally. *)
Definition cc_loop_body (h : EventHub) (env : Envelope) : list Effect * Completion :=
  if bool_decide (Some (ch_type (channel_header env)) = _header_types !! 3) then
    match read_ccEvent (data env) with
    | None => ([], Normal)
    | Some ccEvent =>
        match chaincodeRegistrants h !! chaincode_id ccEvent with
        | None => ([], Return)
        | Some cbtable => (cc_notify ccEvent cbtable, Normal)
        end
    end
  else ([], Normal).

Fixpoint cc_loop (h : EventHub) (rest : list Envelope) : list Effect :=
  match rest with
  | [] => []
  | env :: rest' =>
      match cc_loop_body h env with
      | (calls, Normal) => calls ++ cc_loop h rest'
      | (calls, Return) => calls
      end
  end.

(** [_processChainCodeOnEvents(block)]. *)
Definition _processChainCodeOnEvents (h : EventHub) (block : Block) : list Effect :=
  if bool_decide (size (chaincodeRegistrants h) = 0%nat) then []
  else cc_loop h (envelopes block).

(** The three passes, in the order of the data handler. *)
Definition dispatch (h : EventHub) (block : Block) : list Effect :=
  _processBlockOnEvents h block ++ _processTxOnEvents h block ++
  _processChainCodeOnEvents h block.

(** ** The handlers installed by [_connect] on stream [c] *)

Definition clearTimeout (c : nat) : M unit :=
  emit [ClearTimeout c];;
  modify (fun h => set_timers (filter (fun t => t ≠ c) (timers h)) h).

(** [stream.on('data', ...)]. *)
Definition on_data (c : nat) (event : StreamEvent) : M unit :=
  clearTimeout c;;
  match event with
  | EvBlock (Throw e) => throw e
  | EvBlock (Ok block) => h ← get; emit (dispatch h block)
  | EvRegister => mret tt
  | EvUnregister => h ← get; when (connected h) disconnect
  | EvOther => mret tt
  end.

(** [stream.on('end', ...)]. *)
Definition on_end (c : nat) : M unit :=
  clearTimeout c;;
  h ← get; when (connected h) disconnect.

(** [stream.on('error', ...)]. *)
Definition on_error (c : nat) : M unit :=
  clearTimeout c;;
  h ← get; when (connected h) disconnect.

(** The function given to [setTimeout] by the connection [c]; it runs when
    the timer is still armed. *)
Definition on_timeout (c : nat) : M unit :=
  h ← get;
  if bool_decide (c ∈ timers h) then
    modify (fun h => set_timers (filter (fun t => t ≠ c) (timers h)) h);;
    disconnect
  else mret tt.

(** ** Runs of a hub *)

(** What can happen to a hub: a call of its interface, or a signal of one
    of its streams or timers. *)
Inductive Input : Type :=
| ISetPeerAddr (peerUrl : string)
| IConnect
| IDisconnect
| IRegisterChaincodeEvent (w : World) (id eventname : string) (on_event on_error : option Callback)
| IUnregisterChaincodeEvent (handle : option ChainCodeCBE)
| IRegisterBlockEvent (w : World) (on_event on_error : option Callback)
| IUnregisterBlockEvent (n : Z)
| IRegisterTxEvent (w : World) (txid : string) (on_event on_error : option Callback)
| IUnregisterTxEvent (txid : string)
| IData (c : nat) (event : StreamEvent)
| IEnd (c : nat)
| IError (c : nat)
| ITimeout (c : nat).

(** What the caller gets back. *)
Inductive Output : Type :=
| ODone
| OHandle (cbe : ChainCodeCBE)
| ONumber (n : Z)
| OThrown (e : Exn).

Definition output_of {A} (f : A → Output) (r : Res A) : Output :=
  match r with
  | Ok a => f a
  | Throw e => OThrown e
  end.

(** Runs an operation and keeps what the caller sees of its result. *)
Definition observe {A} (f : A → Output) (m : M A) (h : EventHub)
    : Output * EventHub * list Effect :=
  match m h with
  | (r, h', t) => (output_of f r, h', t)
  end.

Definition done (_ : unit) : Output := ODone.

Definition step (i : Input) (h : EventHub) : Output * EventHub * list Effect :=
  let run {A} (f : A → Output) (m : M A) := observe f m h in
  match i with
  | ISetPeerAddr url => run done (setPeerAddr url)
  | IConnect => run done connect
  | IDisconnect => run done disconnect
  | IRegisterChaincodeEvent w id name ev er => run OHandle (registerChaincodeEvent w id name ev er)
  | IUnregisterChaincodeEvent handle => run done (unregisterChaincodeEvent handle)
  | IRegisterBlockEvent w ev er => run ONumber (registerBlockEvent w ev er)
  | IUnregisterBlockEvent n => run done (unregisterBlockEvent n)
  | IRegisterTxEvent w txid ev er => run done (registerTxEvent w txid ev er)
  | IUnregisterTxEvent txid => run done (unregisterTxEvent txid)
  | IData c event => run done (on_data c event)
  | IEnd c => run done (on_end c)
  | IError c => run done (on_error c)
  | ITimeout c => run done (on_timeout c)
  end.

(** The hub reached after the inputs, and what each of them returned. *)
Fixpoint run (h : EventHub) (inputs : list Input) : EventHub * list Output :=
  match inputs with
  | [] => (h, [])
  | i :: inputs' =>
      match step i h with
      | (o, h', _) =>
          match run h' inputs' with
          | (h'', os) => (h'', o :: os)
          end
      end
  end.

End Dispatch.

End Hub.

(** ** The policy decoder *)
Module PolicyDecoder.

(** The wire values of [Policy.PolicyType]. *)
Definition SIGNATURE : Z := 1.
Definition MSP : Z := 2.
Definition IMPLICIT_META : Z := 3.

Inductive ImplicitMetaRule : Type :=
| ANY
| ALL
| MAJORITY.

Record ImplicitMetaPolicy : Type := mkImplicitMetaPolicy {
  sub_policy : string;
  rule : ImplicitMetaRule
}.

(** A signature policy: an expression tree over identity indices. *)
Inductive SignaturePolicy : Type :=
| SignedBy (index : nat)
| NOutOf (n : nat) (rules : SignaturePolicies)
with SignaturePolicies : Type :=
| NoRule
| Rule (p : SignaturePolicy) (rest : SignaturePolicies).

Record SignaturePolicyEnvelope : Type := mkSignaturePolicyEnvelope {
  sig_rule : SignaturePolicy;
  identities : list string
}.

(** An entry of a [policies] map: its name and the policy field. *)
Record ConfigPolicy : Type := mkConfigPolicy {
  policy_name : string;
  policy_type : Z;
  policy_value : list Z
}.

Inductive PolicyTypeName : Type :=
| T_SIGNATURE
| T_MSP
| T_IMPLICIT_META.

Inductive PolicyBody : Type :=
| SignatureBody (p : SignaturePolicyEnvelope)
| ImplicitMetaBody (p : ImplicitMetaPolicy)
| Placeholder.

Record DecodedPolicy : Type := mkDecodedPolicy {
  decoded_type : PolicyTypeName;
  decoded_policy : PolicyBody
}.

Inductive Level : Type :=
| Warn.

(** A diagnostic of the decoder: which policy, which type. *)
Record Diagnostic : Type := mkDiagnostic {
  level : Level;
  about_policy : string;
  about_type : PolicyTypeName
}.

Inductive DecodeFailure : Type :=
| UnknownPolicyTypeError (type : Z)
| DecodeError.

(** The decoded policy comes with the warnings emitted on the way; a
    failure carries no partial result. *)
Inductive DecodeResult : Type :=
| Decoded (p : DecodedPolicy) (warnings : list Diagnostic)
| Failed (e : DecodeFailure).

Section Decoder.

(** The wire decoders of the two supported policy values; [None] when the
    bytes violate the expected wire type. *)
Variable decodeSignaturePolicyEnvelope : list Z → option SignaturePolicyEnvelope.
Variable decodeImplicitMetaPolicy : list Z → option ImplicitMetaPolicy.

(** Modelled from the spec: [decodeConfigPolicy] of Block.js, the policy
    decoder, is not among the sources; only its unit test is.  The spec
    (4.2) gives its contract: SIGNATURE and IMPLICIT_META values are
    decoded, MSP gives a warning naming the policy and the type together
    with a placeholder, every other type fails with UnknownPolicyTypeError. *)
Definition decodePolicy (cp : ConfigPolicy) : DecodeResult :=
  if bool_decide (policy_type cp = SIGNATURE) then
    match decodeSignaturePolicyEnvelope (policy_value cp) with
    | Some p => Decoded (mkDecodedPolicy T_SIGNATURE (SignatureBody p)) []
    | None => Failed DecodeError
    end
  else if bool_decide (policy_type cp = MSP) then
    Decoded (mkDecodedPolicy T_MSP Placeholder)
            [mkDiagnostic Warn (policy_name cp) T_MSP]
  else if bool_decide (policy_type cp = IMPLICIT_META) then
    match decodeImplicitMetaPolicy (policy_value cp) with
    | Some p => Decoded (mkDecodedPolicy T_IMPLICIT_META (ImplicitMetaBody p)) []
    | None => Failed DecodeError
    end
  else Failed (UnknownPolicyTypeError (policy_type cp)).

End Decoder.

End PolicyDecoder.

(** ** Vocabulary of the properties *)
Module Props.
Import Hub.

(** [sub] occurs in [s]. *)
Definition contains (sub s : string) : Prop :=
  ∃ pre post : string, s = pre +:+ sub +:+ post.

(** Modelled from the spec: common.proto is not among the sources.  The
    spec (3, 4.1) names the header types CONFIG, CONFIG_UPDATE and
    ENDORSER_TRANSACTION and gives the endorser transaction the number 3. *)
Definition common_HeaderType : list (string * Z) :=
  [("CONFIG", 1); ("CONFIG_UPDATE", 2); ("ENDORSER_TRANSACTION", 3)].

(** Modelled from the spec: transaction.proto is not among the sources.
    The glossary names the validation code VALID; it is the first of the
    enumeration. *)
Definition protos_TxValidationCode : list (string * Z) :=
  [("VALID", 0)].

(** An envelope of the given header type whose first action carries the
    chaincode event. *)
Definition event_envelope (type txid : string) (ccEvent : ChaincodeEvent) : Envelope :=
  mkEnvelope (mkChannelHeader type txid)
             (Transaction [mkTransactionAction (Some ccEvent)]).

(** An envelope that carries only a channel header. *)
Definition plain_envelope (type txid : string) : Envelope :=
  mkEnvelope (mkChannelHeader type txid) OtherData.

(** The three registration calls, with the arguments a caller passes. *)
Inductive Registration : Type :=
| RegBlock (on_event : Callback) (on_error : option Callback)
| RegTx (txid : string) (on_event : Callback) (on_error : option Callback)
| RegChaincode (id eventname : string) (on_event : Callback) (on_error : option Callback).

Definition register (w : World) (r : Registration) (h : EventHub)
    : Output * EventHub * list Effect :=
  match r with
  | RegBlock ev er => observe ONumber (registerBlockEvent w (Some ev) er) h
  | RegTx txid ev er => observe done (registerTxEvent w txid (Some ev) er) h
  | RegChaincode id name ev er =>
      observe OHandle (registerChaincodeEvent w id name (Some ev) er) h
  end.




(** The three registries hold nothing. *)
Definition registries_empty (h : EventHub) : Prop :=
  chaincodeRegistrants h = ∅ ∧
  blockOnEvents h = ∅ ∧ blockOnErrors h = ∅ ∧
  transactionOnEvents h = ∅ ∧ transactionOnErrors h = ∅.



(** The calls of a trace that pass the transaction id [txid]. *)
Definition is_call_for (txid : string) (e : Effect) : bool :=
  match e with
  | CallTx _ t _ => bool_decide (t = txid)
  | _ => false
  end.

Definition calls_for (txid : string) (t : list Effect) : list Effect :=
  filter (fun e => is_call_for txid e = true) t.


(** The number [n] was returned by the [i]-th input of the run. *)
Definition returned_at (outs : list Output) (i : nat) (n : Z) : Prop :=
  outs !! i = Some (ONumber n).

(** The hub left by [disconnect()]. *)
Definition closed (h : EventHub) : EventHub :=
  mkEventHub ∅ (block_registrant_count h) ∅ ∅ ∅ ∅ (ep h) (stream h) false
    (force_reconnect h) (next_conn h) (timers h) (next_object h).

(** The error callbacks [_closeAllCallbacks] runs on a hub, in its order. *)
Definition shutdown_calls (h : EventHub) : list Effect :=
  ((fun kv => CallErr kv.2 shutdown_error) <$> map_to_list (blockOnErrors h)) ++
  ((fun kv => CallErr kv.2 shutdown_error) <$> map_to_list (transactionOnErrors h)) ++
  mjoin ((fun kv => cc_closer shutdown_error kv.2) <$> map_to_list (chaincodeRegistrants h)).

(** The unregister message and the end of the stream, when there is one. *)
Definition stream_close (h : EventHub) : list Effect :=
  match stream h with
  | Some c => [StreamWrite c false; StreamEnd c]
  | None => []
  end.

Definition is_shutdown_call (e : Effect) : Prop :=
  ∃ cb, e = CallErr cb shutdown_error.

(** ** Hubs and blocks of the examples *)

Definition peer : string := "grpc://localhost:7053".

(** A channel in the READY state, and one that is idle. *)
Definition ready : World := mkWorld false 2.
Definition idle : World := mkWorld false 0.

(** A hub with a peer address that never connected. *)
Definition never_connected : EventHub :=
  hub_after (setPeerAddr peer new_EventHub).

(** A connected hub. *)
Definition connected_hub : EventHub :=
  hub_after (connect never_connected).

(** A hub that was connected and then disconnected by its owner before the
    stream said anything: the registration timeout of connection 0 is still
    armed.  A block listener with an error callback is then registered
    while the channel is READY. *)
Definition stale_timer_hub : EventHub :=
  hub_after (registerBlockEvent ready (Some 1%nat) (Some 2%nat)
               (hub_after (disconnect connected_hub))).

(** A connected hub with one listener, on every event of chaincode cc1. *)
Definition cc1_hub : EventHub :=
  hub_after (registerChaincodeEvent ready "cc1" ".*" (Some 1%nat) None connected_hub).

Definition other_event : ChaincodeEvent := mkChaincodeEvent "other" "tx1" "evt" "".
Definition cc1_event : ChaincodeEvent := mkChaincodeEvent "cc1" "tx2" "evt" "".

(** Two endorser transactions: the first of a chaincode nobody listens to,
    the second of cc1. *)
Definition two_transactions : Block :=
  mkBlock 5 [0; 0]
    [event_envelope "ENDORSER_TRANSACTION" "tx1" other_event;
     event_envelope "ENDORSER_TRANSACTION" "tx2" cc1_event].

(** The same transactions in the other order. *)
Definition two_transactions_swapped : Block :=
  mkBlock 5 [0; 0]
    [event_envelope "ENDORSER_TRANSACTION" "tx2" cc1_event;
     event_envelope "ENDORSER_TRANSACTION" "tx1" other_event].

(** A connected hub with a listener on transaction tx2, and a block of
    three envelopes whose second is tx2. *)
Definition tx2_hub : EventHub :=
  hub_after (registerTxEvent ready "tx2" (Some 7%nat) None connected_hub).


End Props.

(** ** Vocabulary of the laws of the hub *)
Module Laws.
Import Hub.

(** A hub marked connected has a stream, a hub with a stream has a peer
    address, and the stream and the armed timers belong to connections
    already opened. *)
Definition connection_inv (h : EventHub) : Prop :=
  (connected h = true → is_Some (stream h)) ∧
  (is_Some (stream h) → is_Some (ep h)) ∧
  (∀ c, stream h = Some c → (c < next_conn h)%nat) ∧
  (∀ c, c ∈ timers h → (c < next_conn h)%nat).

(** Every error callback of the block and transaction registries stands
    beside an event callback under the same key. *)
Definition error_tables_inv (h : EventHub) : Prop :=
  (∀ n, is_Some (blockOnErrors h !! n) → is_Some (blockOnEvents h !! n)) ∧
  (∀ txid, is_Some (transactionOnErrors h !! txid) → is_Some (transactionOnEvents h !! txid)).

(** No registrant set is empty, every entry is filed under its own
    chaincode id, and the entries of a set are distinct objects among those
    allocated so far. *)
Definition cc_table_inv (allocated : nat) (table : gmap string (list ChainCodeCBE)) : Prop :=
  ∀ id cbtable, table !! id = Some cbtable →
    cbtable ≠ [] ∧
    (∀ cbe, cbe ∈ cbtable → ccid cbe = id ∧ (cbe_id cbe < allocated)%nat) ∧
    NoDup (cbe_id <$> cbtable).

Definition chaincode_inv (h : EventHub) : Prop :=
  cc_table_inv (next_object h) (chaincodeRegistrants h).

(** The block registration numbers in use lie between 1 and the counter. *)
Definition block_keys_inv (h : EventHub) : Prop :=
  1 ≤ block_registrant_count h ∧
  ∀ n, is_Some (blockOnEvents h !! n) → 1 ≤ n < block_registrant_count h.

(** The call [e] is owed to a listener by one of the envelopes: an endorser
    transaction whose chaincode event can be read, of a chaincode with a
    registrant set, one entry of which has a filter that matches the name. *)
Definition cc_call_due (HeaderType : list (string * Z)) (h : EventHub)
    (envs : list Envelope) (e : Effect) : Prop :=
  ∃ env ccEvent cbtable cbe,
    env ∈ envs ∧
    Some (ch_type (channel_header env)) = _header_types HeaderType !! 3 ∧
    read_ccEvent (data env) = Some ccEvent ∧
    chaincodeRegistrants h !! chaincode_id ccEvent = Some cbtable ∧
    cbe ∈ cbtable ∧
    JsRegExp.test (eventNameFilter cbe) (event_name ccEvent) = true ∧
    e = CallCC (onEvent cbe) ccEvent.

(** Every chaincode event the envelopes carry is of a chaincode that has a
    registrant set. *)
Definition all_chaincodes_registered (HeaderType : list (string * Z)) (h : EventHub)
    (envs : list Envelope) : Prop :=
  ∀ env ccEvent,
    env ∈ envs →
    Some (ch_type (channel_header env)) = _header_types HeaderType !! 3 →
    read_ccEvent (data env) = Some ccEvent →
    is_Some (chaincodeRegistrants h !! chaincode_id ccEvent).

(** The three signals that end a connection: the end of the stream, an
    error of the stream, and an unregister message. *)
Inductive Terminal : Type :=
| StreamEnded
| StreamFailed
| Unregistered.

Definition terminal (TxValidationCode HeaderType : list (string * Z))
    (c : nat) (k : Terminal) : M unit :=
  match k with
  | StreamEnded => on_end c
  | StreamFailed => on_error c
  | Unregistered => on_data TxValidationCode HeaderType c EvUnregister
  end.

(** The timeout of connection [c] has nothing to do on the hub. *)
Definition timeout_is_quiet (c : nat) (h : EventHub) : Prop :=
  on_timeout c h = (Ok tt, h, []).

(** The quantifiers of the pattern syntax. *)
Definition is_quantifier (c : ascii) : Prop :=
  c = "*"%char ∨ c = "+"%char ∨ c = "?"%char.

(** The source of the pattern that matches exactly [lit]. *)
Definition anchored (lit : string) : string := "^" +:+ lit +:+ "$".

(** An envelope of a configuration block. *)
Definition config_envelope : Envelope := Props.plain_envelope "CONFIG" "".

End Laws.

(** ** Tactics *)

(** Names the fields of a hub. *)
Ltac destruct_hub h :=
  destruct h as [cR cnt bE bX tE tX ep_ st conn fr nc tm no].

(** Runs the operations of the hub on a hub given by its fields. *)
Ltac hub_unfold :=
  cbv [Hub.registerChaincodeEvent Hub.registerBlockEvent Hub.registerTxEvent
       Hub.unregisterChaincodeEvent Hub.unregisterBlockEvent Hub.unregisterTxEvent
       Hub.setPeerAddr Hub._checkConnection Hub._connect Hub.connect Hub.disconnect
       Hub._closeAllCallbacks Hub._sendRegistration Hub.new_ChainCodeCBE
       Hub.clearTimeout Hub.on_data Hub.on_end Hub.on_error Hub.on_timeout
       mbind mret Hub.M_bind Hub.M_ret Hub.bind Hub.ret Hub.throw Hub.try_catch
       Hub.get Hub.modify Hub.emit Hub.when
       Hub.set_chaincodeRegistrants Hub.set_block_registrant_count
       Hub.set_blockOnEvents Hub.set_blockOnErrors Hub.set_transactionOnEvents
       Hub.set_transactionOnErrors Hub.set_ep Hub.set_connected Hub.open_stream
       Hub.set_timers Hub.set_next_object
       Hub.chaincodeRegistrants Hub.block_registrant_count Hub.blockOnEvents
       Hub.blockOnErrors Hub.transactionOnEvents Hub.transactionOnErrors Hub.ep
       Hub.stream Hub.connected Hub.force_reconnect Hub.next_conn Hub.timers
       Hub.next_object Hub.isPaused Hub.connectivityState
       Hub.result Hub.hub_after Hub.trace Hub.observe Hub.output_of Hub.done
       Hub.truthy negb andb fst snd].


(** Closes the goals of an invariant on a hub given by its fields. *)
Ltac close_invariants :=
  repeat match goal with
    | |- _ ∧ _ => split
    | |- ∀ _, _ => intro
    | H : _ ∈ [] |- _ => by apply elem_of_nil in H
    | H : _ ∈ _ :: _ |- _ => apply elem_of_cons in H as [->|H]
    | H : _ ∈ filter _ _ |- _ => apply list_elem_of_filter in H as [_ H]
    | H : Some _ = Some _ |- _ => injection H as ->
    | H : is_Some (∅ !! _) |- _ => rewrite lookup_empty in H; by destruct H
    | H : is_Some (<[_:=_]> _ !! _) |- _ =>
        apply lookup_insert_is_Some in H as [->|[? H]]
    | H : is_Some (delete _ _ !! _) |- _ =>
        apply lookup_delete_is_Some in H as [? H]
    | |- is_Some (<[_:=_]> _ !! _) => apply lookup_insert_is_Some'
    | |- is_Some (delete _ _ !! _) => apply lookup_delete_is_Some
    end;
  try done; try discriminate; eauto;
  try match goal with
    | H : ∀ c, _ → (c < _)%nat |- (_ < _)%nat =>
        first [ specialize (H _ ltac:(eassumption)) | specialize (H _ eq_refl) ]; lia
    end;
  try lia.

(** A hub marked connected without a stream, or with a stream and no peer
    address, contradicts the connection invariant. *)
Ltac inv_contradiction :=
  match goal with
  | H : true = true → is_Some None |- _ => destruct (H eq_refl) as [? [=]]
  | H : is_Some (Some _) → is_Some None |- _ =>
      destruct (H ltac:(eauto)) as [? [=]]
  end.

(** One case for each input and each outcome of the tests the operation
    makes on its arguments, on the world and on the fields of the hub. *)
Ltac step_cases i h :=
  destruct i; cbn [Hub.step];
  try match goal with
      | w : Hub.World |- _ =>
          destruct w as [paused state];
          match goal with s : Z |- _ => destruct (s =? 2) eqn:? end
      end;
  destruct_hub h;
  unfold Hub.registerChaincodeEvent, Hub.registerBlockEvent, Hub.registerTxEvent,
         Hub.unregisterChaincodeEvent, Hub.unregisterBlockEvent, Hub.unregisterTxEvent,
         Hub.new_ChainCodeCBE, Hub.on_data, Hub.on_timeout;
  repeat match goal with
         | |- context [bool_decide ?P] => destruct (bool_decide P)
         | |- context [JsRegExp.RegExp ?s] => destruct (JsRegExp.RegExp s)
         | x : option _ |- _ => destruct x
         | x : bool |- _ => destruct x
         | x : Hub.StreamEvent |- _ => destruct x
         | x : Hub.Res _ |- _ => destruct x
         end;
  hub_unfold;
  try match goal with H : (_ =? 2) = _ |- _ => rewrite ?H end;
  hub_unfold;
  try match goal with
       | |- context [match ?m !! ?k with _ => _ end] => destruct (m !! k) eqn:?
       end;
  repeat case_bool_decide;
  hub_unfold.

(** * Properties *)

(** ** Event name filters *)
Module JsRegExpFacts.
Import JsRegExp.

Lemma list_ascii_of_string_app (a b : string) :
  list_ascii_of_string (a +:+ b) = list_ascii_of_string a ++ list_ascii_of_string b.
Proof.
  induction a as [|c a IH]; simpl; [reflexivity|]. by rewrite IH.
Qed.

Lemma string_of_list_ascii_app (a b : list ascii) :
  string_of_list_ascii (a ++ b) = string_of_list_ascii a +:+ string_of_list_ascii b.
Proof.
  induction a as [|c a IH]; simpl; [reflexivity|]. by rewrite IH.
Qed.

(** An ordinary character is none of the characters the parser treats
    specially. *)
Lemma ordinary_char (c : ascii) :
  is_syntax_char c = false →
  c ≠ "^"%char ∧ c ≠ "$"%char ∧ c ≠ "."%char ∧ c ≠ "\"%char ∧
  c ≠ "*"%char ∧ c ≠ "+"%char ∧ c ≠ "?"%char.
Proof.
  intros H. apply bool_decide_eq_false in H.
  repeat split; intros ->; apply H; unfold syntax_chars; simpl;
    rewrite !elem_of_cons; tauto.
Qed.

Lemma read_atom_ordinary (c : ascii) (r : list ascii) :
  is_syntax_char c = false → read_atom c r = Some (AChar c, r).
Proof.
  intros H. destruct (ordinary_char c H) as (_ & _ & Hdot & Hbs & _).
  unfold read_atom. rewrite !bool_decide_eq_false_2 by assumption.
  by rewrite H.
Qed.

Lemma read_quant_ordinary (c : ascii) (r : list ascii) :
  is_syntax_char c = false → read_quant (c :: r) = (QOne, c :: r).
Proof.
  intros H. destruct (ordinary_char c H) as (_ & _ & _ & _ & Hs & Hp & Hq).
  destruct c as [[] [] [] [] [] [] [] []]; try reflexivity; congruence.
Qed.

Lemma parse_fuel_literal (l : list ascii) (fuel : nat) :
  ordinary l → (length l ≤ fuel)%nat → parse_fuel fuel l = Some (literal l).
Proof.
  intros Hl. revert fuel. induction Hl as [|c l Hc Hl IH]; intros fuel Hf.
  - by destruct fuel.
  - destruct fuel as [|fuel]; simpl in Hf; [lia|].
    destruct (ordinary_char c Hc) as (Hbol & Heol & _).
    simpl. rewrite !bool_decide_eq_false_2 by assumption.
    rewrite read_atom_ordinary by assumption.
    destruct Hl as [|d l Hd Hl].
    + simpl. by destruct fuel.
    + rewrite read_quant_ordinary by assumption.
      rewrite IH by (simpl in *; lia). reflexivity.
Qed.

(** A source of ordinary characters compiles to the sequence of its
    characters. *)
Lemma RegExp_literal (source : string) :
  ordinary (list_ascii_of_string source) →
  RegExp source = Some (literal (list_ascii_of_string source)).
Proof.
  intros H. unfold RegExp. by apply parse_fuel_literal.
Qed.

(** A sequence of characters matches at the head of [s] exactly when it is
    a prefix of [s]. *)
Lemma match_here_literal (l s : list ascii) (st : bool) :
  match_here (literal l) s st = true ↔ ∃ post, s = l ++ post.
Proof.
  revert s st. induction l as [|c l IH]; intros s st; simpl.
  - split; [intros _; by exists s | done].
  - destruct s as [|d s]; [split; [done | intros [? ?]; done]|].
    rewrite andb_true_iff, bool_decide_eq_true, IH. split.
    + intros [-> [post ->]]. by exists post.
    + intros [post Hp]. injection Hp as -> ->. split; [done | by exists post].
Qed.

(** [test] looks for the sequence anywhere in the input. *)
Lemma search_literal (l s : list ascii) (st : bool) :
  search (literal l) s st = true ↔ ∃ pre post, s = pre ++ l ++ post.
Proof.
  revert st. induction s as [|d s IH]; intros st; simpl;
    rewrite orb_true_iff, match_here_literal.
  - split.
    + intros [[post Hp] | ?]; [|done]. by exists [], post.
    + intros (pre & post & Hp). left.
      destruct pre; [by exists post | done].
  - rewrite IH. split.
    + intros [[post Hp] | (pre & post & ->)].
      * by exists [], post.
      * by exists (d :: pre), post.
    + intros (pre & post & Hp). destruct pre as [|e pre].
      * left. by exists post.
      * right. injection Hp as -> ->. by exists pre, post.
Qed.

Lemma test_literal (sub s : string) :
  ordinary (list_ascii_of_string sub) →
  ∃ re, RegExp sub = Some re ∧ (test re s = true ↔ Props.contains sub s).
Proof.
  intros H. exists (literal (list_ascii_of_string sub)).
  split; [by apply RegExp_literal|].
  unfold test, Props.contains. rewrite search_literal. split.
  - intros (pre & post & Hs).
    exists (string_of_list_ascii pre), (string_of_list_ascii post).
    rewrite <- (string_of_list_ascii_of_string s), Hs.
    by rewrite !string_of_list_ascii_app, string_of_list_ascii_of_string.
  - intros (pre & post & ->).
    exists (list_ascii_of_string pre), (list_ascii_of_string post).
    by rewrite !list_ascii_of_string_app.
Qed.

(** [.*] matches at the head of every input. *)
Lemma test_dot_star (s : string) :
  ∃ re, RegExp ".*" = Some re ∧ test re s = true.
Proof.
  eexists. split; [reflexivity|].
  unfold test. destruct (list_ascii_of_string s) as [|c l]; simpl; [done|].
  apply orb_true_iff. left. apply orb_true_r.
Qed.

End JsRegExpFacts.

(** ** The event hub *)
Module HubFacts.
Import Hub Props.

(** *** Connection checks and disconnect *)

Lemma checkConnection_plain w te h url :
  ep h = Some url →
  _checkConnection w te false h =
    if connected h || negb te then (Ok tt, h, [])
    else (Throw (Error "The event hub has not been connected to the event source"), h, []).
Proof.
  intros Hep. destruct_hub h; simpl in *; subst.
  hub_unfold. destruct conn, te; reflexivity.
Qed.

(** With a stream, the reconnect check resumes a paused stream and opens a
    new connection unless the channel is READY. *)
Lemma checkConnection_reconnect w h url c :
  ep h = Some url → stream h = Some c →
  _checkConnection w false true h =
    let t1 := if isPaused w then [StreamResume c] else [] in
    if connectivityState w =? 2 then (Ok tt, h, t1)
    else (Ok tt, set_connected true (open_stream (set_timers (next_conn h :: timers h) h)),
          t1 ++ [SetTimeout (next_conn h); OpenStream (next_conn h);
                 StreamWrite (next_conn h) true]).
Proof.
  intros Hep Hst. destruct_hub h; simpl in *; subst.
  destruct w as [paused state].
  hub_unfold. destruct conn, paused, (state =? 2); reflexivity.
Qed.

(** Without a stream, the reconnect check disconnects and throws. *)
Lemma checkConnection_no_stream w h url :
  ep h = Some url → stream h = None →
  _checkConnection w false true h =
    match disconnect h with
    | (_, h', t) => (Throw (Error "Event hub is not connected "), h', t)
    end.
Proof.
  intros Hep Hst. destruct_hub h; simpl in *; subst.
  hub_unfold. destruct conn; simpl; rewrite ?app_nil_r; reflexivity.
Qed.

Lemma disconnect_eq h :
  disconnect h = (Ok tt, closed h, shutdown_calls h ++ stream_close h).
Proof.
  destruct_hub h. unfold closed, shutdown_calls, stream_close.
  hub_unfold. destruct st; cbn [app]; rewrite ?app_nil_r, <- ?app_assoc; reflexivity.
Qed.

Lemma shutdown_calls_only h e : e ∈ shutdown_calls h → is_shutdown_call e.
Proof.
  unfold shutdown_calls, is_shutdown_call. rewrite !elem_of_app.
  intros [He | [He | He]].
  - apply list_elem_of_fmap in He as (kv & -> & _). eauto.
  - apply list_elem_of_fmap in He as (kv & -> & _). eauto.
  - apply list_elem_of_join in He as (l & He & Hl).
    apply list_elem_of_fmap in Hl as (kv & -> & _).
    apply list_elem_of_omap in He as (cbe & _ & He).
    destruct (onError cbe); [|done]. injection He as <-. eauto.
Qed.



(** The stream handlers look at the connection mark first. *)
Lemma on_end_when_disconnected c h :
  connected h = false →
  on_end c h = (Ok tt, set_timers (filter (fun t => t ≠ c) (timers h)) h, [ClearTimeout c]).
Proof.
  intros Hc. destruct_hub h; simpl in *; subst. reflexivity.
Qed.

Lemma on_error_when_disconnected c h :
  connected h = false →
  on_error c h = (Ok tt, set_timers (filter (fun t => t ≠ c) (timers h)) h, [ClearTimeout c]).
Proof.
  intros Hc. destruct_hub h; simpl in *; subst. reflexivity.
Qed.

(** The timeout does not: an armed timer disconnects whatever the mark. *)
Lemma on_timeout_armed c h :
  c ∈ timers h →
  on_timeout c h =
    (Ok tt, closed (set_timers (filter (fun t => t ≠ c) (timers h)) h),
     shutdown_calls h ++ stream_close h).
Proof.
  intros Hc. destruct_hub h. cbn [timers] in Hc.
  unfold closed, shutdown_calls, stream_close.
  hub_unfold. rewrite (bool_decide_eq_true_2 _ Hc). hub_unfold.
  destruct st; cbn [app]; rewrite ?app_nil_r, <- ?app_assoc; reflexivity.
Qed.

(** *** Registration *)

(** On a connected hub with a stream every well-formed chaincode
    registration is accepted and appended to the set of its chaincode. *)
Lemma registerChaincodeEvent_live w h url c id name re ev er :
  ep h = Some url → connected h = true → stream h = Some c →
  id ≠ "" → name ≠ "" → JsRegExp.RegExp name = Some re →
  let cbe := mkChainCodeCBE (next_object h) id re ev er in
  let r := registerChaincodeEvent w id name (Some ev) er h in
  result r = Ok cbe ∧
  chaincodeRegistrants (hub_after r) =
    <[id := default [] (chaincodeRegistrants h !! id) ++ [cbe]]> (chaincodeRegistrants h) ∧
  ep (hub_after r) = Some url ∧ connected (hub_after r) = true ∧
  is_Some (stream (hub_after r)).
Proof.
  intros Hep Hc Hst Hid Hname Hre cbe.
  destruct_hub h; simpl in *; subst.
  unfold registerChaincodeEvent.
  rewrite !bool_decide_eq_false_2 by assumption.
  unfold new_ChainCodeCBE. rewrite Hre.
  destruct w as [paused state].
  destruct er as [er|], fr; hub_unfold;
    destruct paused, (state =? 2); hub_unfold; eauto 10.
Qed.




(** *** Disconnect *)

Section Dispatching.

Variable TxValidationCode : list (string * Z).
Variable HeaderType : list (string * Z).

Lemma dispatch_closed h block :
  dispatch TxValidationCode HeaderType (closed h) block = [].
Proof. reflexivity. Qed.

(** C4.  [disconnect()] returns normally and leaves the hub marked
    disconnected with its three registries empty.  Every error callback
    that was in the block or transaction registry, and the error callback
    of every chaincode entry that has one, is called with the shutdown
    error; the trace is made of such calls, followed, when the hub has a
    stream, by the unregister message and the end of the stream.  No
    dispatch on the hub it leaves calls anything. *)
Theorem disconnect_closes_every_listener h :
  let r := disconnect h in
  result r = Ok tt ∧
  connected (hub_after r) = false ∧
  registries_empty (hub_after r) ∧
  (∀ n cb, blockOnErrors h !! n = Some cb → CallErr cb shutdown_error ∈ trace r) ∧
  (∀ txid cb, transactionOnErrors h !! txid = Some cb → CallErr cb shutdown_error ∈ trace r) ∧
  (∀ id cbtable cbe cb,
     chaincodeRegistrants h !! id = Some cbtable → cbe ∈ cbtable → onError cbe = Some cb →
     CallErr cb shutdown_error ∈ trace r) ∧
  (∃ calls, Forall is_shutdown_call calls ∧
     trace r = calls ++
       match stream h with
       | Some c => [StreamWrite c false; StreamEnd c]
       | None => []
       end) ∧
  (∀ block, dispatch TxValidationCode HeaderType (hub_after r) block = []).
Proof.
  cbn zeta. rewrite disconnect_eq. unfold result, hub_after, trace. cbn [fst snd].
  split; [done|]. split; [done|]. split; [by repeat split|].
  split; [|split; [|split; [|split]]].
  - intros n cb Hn. unfold shutdown_calls. rewrite !elem_of_app. left. left.
    apply list_elem_of_fmap. exists (n, cb). split; [done|].
    by apply elem_of_map_to_list.
  - intros txid cb Hn. unfold shutdown_calls. rewrite !elem_of_app. left. right. left.
    apply list_elem_of_fmap. exists (txid, cb). split; [done|].
    by apply elem_of_map_to_list.
  - intros id cbtable cbe cb Hid Hcbe Herr. unfold shutdown_calls.
    rewrite !elem_of_app. left. right. right.
    apply list_elem_of_join. exists (cc_closer shutdown_error cbtable). split.
    + apply list_elem_of_omap. exists cbe. split; [done|]. by rewrite Herr.
    + apply list_elem_of_fmap. exists (id, cbtable). split; [done|].
      by apply elem_of_map_to_list.
  - exists (shutdown_calls h). split; [|done].
    apply Forall_forall. apply shutdown_calls_only.
  - intros block. apply dispatch_closed.
Qed.

End Dispatching.

(** *** The transaction pass *)

Section TransactionPass.

Variable TxValidationCode : list (string * Z).


(** The calls of the loop that pass one transaction id. *)
Lemma calls_for_tx_loop h codes index rest txid :
  calls_for txid (tx_loop TxValidationCode h codes index rest) =
  match transactionOnEvents h !! txid with
  | None => []
  | Some cb =>
      omap (fun p : nat * Envelope =>
              if bool_decide (ch_tx_id (channel_header p.2) = txid)
              then Some (CallTx cb txid (convertValidationCode TxValidationCode (codes !! p.1)))
              else None)
           (imap (fun i env => ((index + i)%nat, env)) rest)
  end.
Proof.
  revert index. induction rest as [|env rest IH]; intros index.
  - simpl. by destruct (transactionOnEvents h !! txid).
  - rewrite imap_cons. cbn [tx_loop]. unfold calls_for in *.
    rewrite filter_app, IH. clear IH.
    rewrite (imap_ext ((fun i env => ((index + i)%nat, env)) ∘ S)
                      (fun i env => ((S index + i)%nat, env)))
      by (intros; simpl; f_equal; lia).
    unfold tx_loop_body. cbn [omap list_omap fst snd]. rewrite Nat.add_0_r.
    case_bool_decide as Hid.
    + rewrite Hid. destruct (transactionOnEvents h !! txid) as [cb|]; [|done].
      rewrite filter_cons_True by (simpl; by rewrite bool_decide_eq_true_2).
      reflexivity.
    + destruct (transactionOnEvents h !! ch_tx_id (channel_header env)) as [cb'|].
      * rewrite filter_cons_False by (simpl; by rewrite bool_decide_eq_false_2).
        simpl. by destruct (transactionOnEvents h !! txid).
      * simpl. by destruct (transactionOnEvents h !! txid).
Qed.



End TransactionPass.


(** *** The chaincode pass *)

Section ChaincodePass.

Variable HeaderType : list (string * Z).

(** A block of one endorser transaction whose chaincode has a registrant
    set: the pass notifies that set. *)
Lemma cc_dispatch_single h ty cbtable n codes txid ccEvent :
  _header_types HeaderType !! 3 = Some ty →
  chaincodeRegistrants h !! chaincode_id ccEvent = Some cbtable →
  _processChainCodeOnEvents HeaderType h (mkBlock n codes [event_envelope ty txid ccEvent]) =
  cc_notify ccEvent cbtable.
Proof.
  intros Hty Htable. unfold _processChainCodeOnEvents.
  rewrite bool_decide_eq_false_2
    by (apply map_size_ne_0_lookup; eauto).
  cbn [envelopes cc_loop]. unfold cc_loop_body. cbn.
  rewrite bool_decide_eq_true_2 by done.
  rewrite Htable. apply app_nil_r.
Qed.

Lemma cc_notify_two ccEvent a b :
  cc_notify ccEvent [a; b] =
  (if JsRegExp.test (eventNameFilter a) (event_name ccEvent)
   then [CallCC (onEvent a) ccEvent] else []) ++
  (if JsRegExp.test (eventNameFilter b) (event_name ccEvent)
   then [CallCC (onEvent b) ccEvent] else []).
Proof.
  unfold cc_notify.
  destruct (JsRegExp.test (eventNameFilter a) _) eqn:Ha,
           (JsRegExp.test (eventNameFilter b) _) eqn:Hb;
    repeat (rewrite ?filter_cons_True, ?filter_cons_False, ?filter_nil by congruence);
    reflexivity.
Qed.

(** The loop returns at the first endorser transaction whose chaincode has
    no registrant set: the envelopes after it are not visited. *)
Lemma cc_loop_returns h pre env post ccEvent :
  Some (ch_type (channel_header env)) = _header_types HeaderType !! 3 →
  read_ccEvent (data env) = Some ccEvent →
  chaincodeRegistrants h !! chaincode_id ccEvent = None →
  cc_loop HeaderType h (pre ++ env :: post) = cc_loop HeaderType h (pre ++ [env]).
Proof.
  intros Hty Hev Hnone. induction pre as [|e pre IH]; cbn [app cc_loop].
  - unfold cc_loop_body. rewrite bool_decide_eq_true_2 by done.
    by rewrite Hev, Hnone.
  - destruct (cc_loop_body HeaderType h e) as [calls []]; [|done].
    by rewrite IH.
Qed.

(** The turn of an envelope ends normally when its chaincode event, if it
    is an endorser transaction with a readable one, is of a chaincode that
    has a registrant set. *)
Lemma cc_loop_body_normal h env :
  Laws.all_chaincodes_registered HeaderType h [env] →
  (cc_loop_body HeaderType h env).2 = Normal.
Proof.
  intros Hall. unfold cc_loop_body. case_bool_decide as Hty; [|done].
  destruct (read_ccEvent (data env)) as [ev|] eqn:Hev; [|done].
  destruct (Hall env ev ltac:(by apply list_elem_of_singleton) Hty Hev) as [tbl Htbl].
  by rewrite Htbl.
Qed.

(** The loop goes through a prefix in which no turn returns and then
    through the rest. *)
Lemma cc_loop_app h pre rest :
  Laws.all_chaincodes_registered HeaderType h pre →
  cc_loop HeaderType h (pre ++ rest) = cc_loop HeaderType h pre ++ cc_loop HeaderType h rest.
Proof.
  induction pre as [|env pre IH]; intros Hall; [done|].
  cbn [app cc_loop].
  assert (Hn : (cc_loop_body HeaderType h env).2 = Normal).
  { apply cc_loop_body_normal. intros env' ev Hin%list_elem_of_singleton. subst env'.
    apply Hall. by left. }
  destruct (cc_loop_body HeaderType h env) as [calls cpl]. cbn [snd] in Hn. subst cpl.
  rewrite IH, app_assoc; [done|].
  intros env' ev Hin. apply Hall. by right.
Qed.

(** An endorser transaction whose chaincode has a registrant set, anywhere
    in a block after envelopes that do not make the pass return: the pass
    makes the calls of the envelopes before, then notifies the set, then
    goes on with the envelopes after. *)
Lemma cc_dispatch_at h ty cbtable n codes txid ccEvent pre post :
  _header_types HeaderType !! 3 = Some ty →
  chaincodeRegistrants h !! chaincode_id ccEvent = Some cbtable →
  Laws.all_chaincodes_registered HeaderType h pre →
  _processChainCodeOnEvents HeaderType h
    (mkBlock n codes (pre ++ event_envelope ty txid ccEvent :: post)) =
  _processChainCodeOnEvents HeaderType h (mkBlock n codes pre) ++
  cc_notify ccEvent cbtable ++
  _processChainCodeOnEvents HeaderType h (mkBlock n codes post).
Proof.
  intros Hty Htable Hall. unfold _processChainCodeOnEvents.
  rewrite bool_decide_eq_false_2
    by (apply map_size_ne_0_lookup; eauto).
  cbn [envelopes]. rewrite cc_loop_app by done. f_equal.
  cbn [cc_loop]. unfold cc_loop_body. cbn.
  rewrite bool_decide_eq_true_2 by done.
  by rewrite Htable.
Qed.

(** C7.  On a connected hub with no listener yet for a chaincode, register
    a listener with the filter evtA and then one with the filter [.*].
    Take any block in which an endorser transaction carries an event of
    that chaincode, after envelopes none of which carries an event of a
    chaincode without registrant set, and before any envelopes at all.  If
    the event is named evtA, the pass makes the calls of the envelopes
    before, then calls both listeners, then goes on with the envelopes
    after; if it is named evtB, it calls the second listener only. *)
Theorem two_filters_on_one_chaincode
    w h url c id ty e1 er1 e2 er2 n codes txid payload pre post :
  ep h = Some url → connected h = true → stream h = Some c →
  id ≠ "" → chaincodeRegistrants h !! id = None →
  _header_types HeaderType !! 3 = Some ty →
  let h1 := hub_after (registerChaincodeEvent w id "evtA" (Some e1) er1 h) in
  let h2 := hub_after (registerChaincodeEvent w id ".*" (Some e2) er2 h1) in
  let evtA := mkChaincodeEvent id txid "evtA" payload in
  let evtB := mkChaincodeEvent id txid "evtB" payload in
  let pass envs := _processChainCodeOnEvents HeaderType h2 (mkBlock n codes envs) in
  Laws.all_chaincodes_registered HeaderType h2 pre →
  pass (pre ++ event_envelope ty txid evtA :: post) =
    pass pre ++ [CallCC e1 evtA; CallCC e2 evtA] ++ pass post ∧
  pass (pre ++ event_envelope ty txid evtB :: post) =
    pass pre ++ [CallCC e2 evtB] ++ pass post.
Proof.
  intros Hep Hc Hst Hid Hnone Hty h1 h2 evtA evtB pass Hall.
  destruct (registerChaincodeEvent_live w h url c id "evtA" _ e1 er1
              Hep Hc Hst Hid ltac:(done) eq_refl) as (_ & Hr1 & Hep1 & Hc1 & [c1 Hst1]).
  fold h1 in Hr1, Hep1, Hc1, Hst1.
  destruct (registerChaincodeEvent_live w h1 url c1 id ".*" _ e2 er2
              Hep1 Hc1 Hst1 Hid ltac:(done) eq_refl) as (_ & Hr2 & _).
  fold h2 in Hr2.
  rewrite Hr1, lookup_insert_eq, Hnone, insert_insert_eq in Hr2.
  cbn [default from_option Datatypes.id app] in Hr2.
  unfold pass. split.
  - rewrite (cc_dispatch_at h2 ty _ n codes txid evtA pre post Hty
               ltac:(rewrite Hr2; apply lookup_insert_eq) Hall).
    by rewrite cc_notify_two.
  - rewrite (cc_dispatch_at h2 ty _ n codes txid evtB pre post Hty
               ltac:(rewrite Hr2; apply lookup_insert_eq) Hall).
    by rewrite cc_notify_two.
Qed.

(** C10.  The filter evtA is compiled without anchors and tested anywhere
    in the event name.  On a connected hub whose only listener for a
    chaincode has the filter evtA, take any block in which an endorser
    transaction carries an event of that chaincode, after envelopes none of
    which carries an event of a chaincode without registrant set, and
    before any envelopes at all: between the calls of the envelopes before
    and those of the envelopes after, the listener is called exactly when
    the name of the event contains evtA, as evtAB and xevtA do. *)
Theorem filter_matches_substrings
    w h url c id ty ev er n codes txid name payload pre post :
  ep h = Some url → connected h = true → stream h = Some c →
  id ≠ "" → chaincodeRegistrants h !! id = None →
  _header_types HeaderType !! 3 = Some ty →
  let h1 := hub_after (registerChaincodeEvent w id "evtA" (Some ev) er h) in
  let ccEvent := mkChaincodeEvent id txid name payload in
  let pass envs := _processChainCodeOnEvents HeaderType h1 (mkBlock n codes envs) in
  Laws.all_chaincodes_registered HeaderType h1 pre →
  (contains "evtA" name →
   pass (pre ++ event_envelope ty txid ccEvent :: post) =
     pass pre ++ [CallCC ev ccEvent] ++ pass post) ∧
  (¬ contains "evtA" name →
   pass (pre ++ event_envelope ty txid ccEvent :: post) = pass pre ++ pass post) ∧
  contains "evtA" "evtAB" ∧ contains "evtA" "xevtA".
Proof.
  intros Hep Hc Hst Hid Hnone Hty h1 ccEvent pass Hall.
  destruct (JsRegExpFacts.test_literal "evtA" name) as (re & Hre & Htest).
  { unfold JsRegExp.ordinary. simpl. repeat constructor. }
  destruct (registerChaincodeEvent_live w h url c id "evtA" re ev er
              Hep Hc Hst Hid ltac:(done) Hre) as (_ & Hr1 & _).
  fold h1 in Hr1. rewrite Hnone in Hr1.
  cbn [default from_option Datatypes.id app] in Hr1.
  assert (Hfired : pass (pre ++ event_envelope ty txid ccEvent :: post) =
                   pass pre ++
                   (if JsRegExp.test re name then [CallCC ev ccEvent] else []) ++
                   pass post).
  { unfold pass.
    rewrite (cc_dispatch_at h1 ty _ n codes txid ccEvent pre post Hty
               ltac:(rewrite Hr1; apply lookup_insert_eq) Hall).
    unfold cc_notify. cbn [event_name ccEvent eventNameFilter].
    destruct (JsRegExp.test re name) eqn:Ht;
      rewrite ?filter_cons_True, ?filter_cons_False, ?filter_nil by (simpl; congruence);
      reflexivity. }
  rewrite Hfired. repeat split.
  - intros Hin. apply Htest in Hin. by rewrite Hin.
  - intros Hout. destruct (JsRegExp.test re name) eqn:Ht; [|done].
    exfalso. by apply Hout, Htest.
  - by exists "", "B".
  - by exists "x", "".
Qed.

End ChaincodePass.

(** A block of four envelopes: a configuration envelope, an event evtB of
    cc1, the event under test, and an event of a chaincode without
    listener. *)
Lemma two_filters_on_one_chaincode_witness :
  let h1 := hub_after (registerChaincodeEvent ready "cc1" "evtA" (Some 1%nat) None connected_hub) in
  let h2 := hub_after (registerChaincodeEvent ready "cc1" ".*" (Some 2%nat) (Some 3%nat) h1) in
  let evtA := mkChaincodeEvent "cc1" "tx1" "evtA" "" in
  let evtB := mkChaincodeEvent "cc1" "tx1" "evtB" "" in
  let pre := [Laws.config_envelope;
              event_envelope "ENDORSER_TRANSACTION" "tx0"
                (mkChaincodeEvent "cc1" "tx0" "evtB" "")] in
  let post := [event_envelope "ENDORSER_TRANSACTION" "tx1" other_event] in
  let pass envs := _processChainCodeOnEvents common_HeaderType h2 (mkBlock 5 [0] envs) in
  pass (pre ++ event_envelope "ENDORSER_TRANSACTION" "tx1" evtA :: post) =
    pass pre ++ [CallCC 1%nat evtA; CallCC 2%nat evtA] ++ pass post ∧
  pass (pre ++ event_envelope "ENDORSER_TRANSACTION" "tx1" evtB :: post) =
    pass pre ++ [CallCC 2%nat evtB] ++ pass post.
Proof.
  intros h1 h2 evtA evtB pre post.
  apply (two_filters_on_one_chaincode common_HeaderType ready connected_hub peer 0%nat
           "cc1" "ENDORSER_TRANSACTION" 1%nat None 2%nat (Some 3%nat) 5 [0] "tx1" ""
           pre post).
  - reflexivity.
  - reflexivity.
  - reflexivity.
  - discriminate.
  - vm_compute. reflexivity.
  - vm_compute. reflexivity.
  - intros env ccEvent Hin Hty Hev.
    apply elem_of_cons in Hin as [-> | Hin]; [vm_compute in Hty; discriminate|].
    apply list_elem_of_singleton in Hin. subst env.
    injection Hev as <-. vm_compute. eauto.
Defined.

Lemma filter_matches_substrings_witness :
  let h1 := hub_after (registerChaincodeEvent ready "cc1" "evtA" (Some 1%nat) None connected_hub) in
  let ccEvent := mkChaincodeEvent "cc1" "tx1" "xevtAB" "" in
  let pre := [Laws.config_envelope;
              event_envelope "ENDORSER_TRANSACTION" "tx0"
                (mkChaincodeEvent "cc1" "tx0" "evtB" "")] in
  let post := [event_envelope "ENDORSER_TRANSACTION" "tx1" other_event] in
  let pass envs := _processChainCodeOnEvents common_HeaderType h1 (mkBlock 5 [0] envs) in
  contains "evtA" "xevtAB" ∧
  pass (pre ++ event_envelope "ENDORSER_TRANSACTION" "tx1" ccEvent :: post) =
    pass pre ++ [CallCC 1%nat ccEvent] ++ pass post.
Proof.
  intros h1 ccEvent pre post pass.
  assert (Hin : contains "evtA" "xevtAB") by (by exists "x", "B").
  split; [exact Hin|].
  apply (filter_matches_substrings common_HeaderType ready connected_hub peer 0%nat
           "cc1" "ENDORSER_TRANSACTION" 1%nat None 5 [0] "tx1" "xevtAB" "" pre post);
    [reflexivity | reflexivity | reflexivity | discriminate
    | vm_compute; reflexivity | vm_compute; reflexivity | | exact Hin].
  intros env ev Hin' Hty Hev.
  apply elem_of_cons in Hin' as [-> | Hin']; [vm_compute in Hty; discriminate|].
  apply list_elem_of_singleton in Hin'. subst env.
  injection Hev as <-. vm_compute. eauto.
Defined.

(** C1, where the code departs from the claim.  The hub listens to every
    event of chaincode cc1.  A block whose first endorser transaction is of
    a chaincode with no registrant set and whose second is of cc1 calls
    nothing: the pass returns at the first envelope.  With the two
    envelopes in the other order, or with the second alone, the listener
    of cc1 is called. *)
Theorem chaincode_pass_stops_at_unregistered_chaincode :
  chaincodeRegistrants cc1_hub !! "other" = None ∧
  _processChainCodeOnEvents common_HeaderType cc1_hub two_transactions = [] ∧
  _processChainCodeOnEvents common_HeaderType cc1_hub two_transactions_swapped =
    [CallCC 1%nat cc1_event] ∧
  _processChainCodeOnEvents common_HeaderType cc1_hub
    (mkBlock 5 [0] [event_envelope "ENDORSER_TRANSACTION" "tx2" cc1_event]) =
    [CallCC 1%nat cc1_event].
Proof. vm_compute. repeat split. Qed.

(** *** Terminal signals and the timeout *)

(** C8, where the code departs from the claim.  On a hub marked
    disconnected whose timer of connection 0 is still armed, the end of the
    stream does nothing but clear the timer, and the listener stays
    registered; the expiry of the timer runs [disconnect()] all the same:
    the error callback of the listener gets the shutdown error, and the
    unregister message and the end of the stream are sent once more. *)
Theorem timeout_disconnects_without_looking :
  connected stale_timer_hub = false ∧
  timers stale_timer_hub = [0%nat] ∧
  blockOnErrors stale_timer_hub !! 1 = Some 2%nat ∧
  trace (on_end 0 stale_timer_hub) = [ClearTimeout 0] ∧
  blockOnErrors (hub_after (on_end 0 stale_timer_hub)) !! 1 = Some 2%nat ∧
  trace (on_error 0 stale_timer_hub) = [ClearTimeout 0] ∧
  trace (on_timeout 0 stale_timer_hub) =
    [CallErr 2%nat shutdown_error; StreamWrite 0 false; StreamEnd 0] ∧
  blockOnErrors (hub_after (on_timeout 0 stale_timer_hub)) !! 1 = None ∧
  trace (disconnect connected_hub) = [StreamWrite 0 false; StreamEnd 0] ∧
  trace (on_timeout 0 (hub_after (disconnect connected_hub))) =
    [StreamWrite 0 false; StreamEnd 0].
Proof. vm_compute. repeat split. Qed.

(** *** Block registration numbers *)

Lemma js_succ_bounds n : n ≤ js_succ n ≤ n + 1.
Proof. unfold js_succ. destruct (n <? 2 ^ 53); lia. Qed.

Lemma js_succ_exact n : n < 2 ^ 53 → js_succ n = n + 1.
Proof. intros H. unfold js_succ. destruct (Z.ltb_spec n (2 ^ 53)); lia. Qed.

Section Runs.

Variable TxValidationCode : list (string * Z).
Variable HeaderType : list (string * Z).

Local Abbreviation step := (Hub.step TxValidationCode HeaderType).
Local Abbreviation run := (Hub.run TxValidationCode HeaderType).

(** One input moves the counter by at most one, and only a block
    registration returns a number: the value of the counter before. *)
Lemma step_counter i h :
  let s := step i h in
  block_registrant_count h ≤ block_registrant_count s.1.2 ≤ block_registrant_count h + 1 ∧
  ∀ n, s.1.1 = ONumber n →
       n = block_registrant_count h ∧
       block_registrant_count s.1.2 = js_succ (block_registrant_count h).
Proof.
  pose proof (js_succ_bounds (block_registrant_count h)) as Hb.
  destruct_hub h. cbn [block_registrant_count] in Hb.
  destruct i; cbn [Hub.step].
  all: try destruct w as [paused state].
  all: unfold registerChaincodeEvent, registerBlockEvent, registerTxEvent,
         unregisterChaincodeEvent, unregisterBlockEvent, unregisterTxEvent,
         new_ChainCodeCBE, on_data, on_timeout.
  all: repeat match goal with
         | |- context [bool_decide ?P] => destruct (bool_decide P)
         | |- context [JsRegExp.RegExp ?s] => destruct (JsRegExp.RegExp s)
         | x : option _ |- _ => destruct x
         | x : bool |- _ => destruct x
         | x : StreamEvent |- _ => destruct x
         | x : Res _ |- _ => destruct x
         end.
  all: try destruct (state =? 2) eqn:Hs.
  all: hub_unfold; rewrite ?Hs; hub_unfold.
  all: try (split; [lia | intros ? [=]; subst; done]).
  all: try match goal with
       | |- context [match ?m !! ?k with _ => _ end] => destruct (m !! k)
       end.
  all: repeat match goal with
         | |- context [bool_decide ?P] => destruct (bool_decide P)
         end.
  all: hub_unfold; split; [lia | intros ? [=]].
Qed.

Lemma run_cons i inputs h :
  run h (i :: inputs) =
  ((run (step i h).1.2 inputs).1, (step i h).1.1 :: (run (step i h).1.2 inputs).2).
Proof.
  cbn [Hub.run]. destruct (step i h) as [[o h'] t]. cbn [fst snd].
  by destruct (run h' inputs).
Qed.

(** Only a block registration returns a number. *)
Lemma number_from_block_registration i h n :
  (step i h).1.1 = ONumber n → ∃ w ev er, i = IRegisterBlockEvent w ev er.
Proof.
  destruct i; cbn [Hub.step]; unfold observe;
    match goal with |- context [?m h] => destruct (m h) as [[[] ?] ?] end;
    cbn; try discriminate.
  eauto.
Qed.

(** The counter never decreases along a run, so every number returned
    later is at least the counter now. *)
Lemma run_numbers_lower_bound inputs h j n :
  (run h inputs).2 !! j = Some (ONumber n) → block_registrant_count h ≤ n.
Proof.
  revert h j. induction inputs as [|i inputs IH]; intros h j; [done|].
  rewrite run_cons. cbn [snd].
  destruct (step_counter i h) as [Hc Hn].
  destruct j as [|j]; cbn [lookup list_lookup].
  - intros [= Ho]. apply Hn in Ho as [-> _]. lia.
  - intros Hj. apply IH in Hj. lia.
Qed.

Lemma run_numbers_increase inputs h i j n1 n2 :
  block_registrant_count h + Z.of_nat (length inputs) ≤ 2 ^ 53 →
  (i < j)%nat →
  (run h inputs).2 !! i = Some (ONumber n1) →
  (run h inputs).2 !! j = Some (ONumber n2) →
  block_registrant_count h ≤ n1 ∧ n1 < n2.
Proof.
  revert h i j. induction inputs as [|x inputs IH]; intros h i j Hlen Hij; [done|].
  rewrite run_cons. cbn [snd].
  destruct (step_counter x h) as [Hc Hn].
  cbn [length] in Hlen.
  destruct j as [|j]; [lia|]. destruct i as [|i]; cbn [lookup list_lookup].
  - intros [= Ho] Hj. apply Hn in Ho as [-> Hs].
    rewrite js_succ_exact in Hs by lia.
    apply run_numbers_lower_bound in Hj. lia.
  - intros Hi Hj.
    destruct (IH (step x h).1.2 i j) as [H1 H2]; try done; lia.
Qed.

(** C9.  Along any run of a new hub (calls of its interface and signals of
    its streams, fewer than 2^53 of them, the range in which a JavaScript
    number counts exactly), the numbers returned by two block registrations
    are at least 1 and the later one is strictly larger; so they differ. *)
Theorem block_registration_numbers_increase inputs i j n1 n2 :
  let outs := (run new_EventHub inputs).2 in
  Z.of_nat (length inputs) < 2 ^ 53 →
  (i < j)%nat → returned_at outs i n1 → returned_at outs j n2 →
  1 ≤ n1 ∧ n1 < n2 ∧ n1 ≠ n2.
Proof.
  intros outs Hlen Hij Hi Hj.
  destruct (run_numbers_increase inputs new_EventHub i j n1 n2) as [H1 H2]; try done.
  - cbn [block_registrant_count new_EventHub]. lia.
  - cbn [block_registrant_count new_EventHub] in H1. lia.
Qed.

End Runs.

(** Two block registrations with an unregistration in between: the
    numbers are 1 and 2. *)
Lemma block_registration_numbers_increase_witness :
  let inputs :=
    [ISetPeerAddr peer; IConnect;
     IRegisterBlockEvent ready (Some 1%nat) None;
     IUnregisterBlockEvent 1;
     IRegisterBlockEvent ready (Some 1%nat) (Some 2%nat)] in
  let outs := (Hub.run protos_TxValidationCode common_HeaderType new_EventHub inputs).2 in
  returned_at outs 2 1 ∧ returned_at outs 4 2 ∧ (1 ≤ 1 ∧ 1 < 2 ∧ 1 ≠ 2).
Proof.
  intros inputs outs.
  assert (H2 : returned_at outs 2 1) by (vm_compute; reflexivity).
  assert (H4 : returned_at outs 4 2) by (vm_compute; reflexivity).
  split; [exact H2|]. split; [exact H4|].
  apply (block_registration_numbers_increase
           protos_TxValidationCode common_HeaderType inputs 2 4 1 2);
    [vm_compute; reflexivity | lia | exact H2 | exact H4].
Defined.

End HubFacts.

(** ** The policy decoder *)
Module PolicyDecoderFacts.
Import PolicyDecoder.

Section Decoding.

Variable decodeSignaturePolicyEnvelope : list Z → option SignaturePolicyEnvelope.
Variable decodeImplicitMetaPolicy : list Z → option ImplicitMetaPolicy.

Local Abbreviation decodePolicy :=
  (PolicyDecoder.decodePolicy decodeSignaturePolicyEnvelope decodeImplicitMetaPolicy).

(** C5.  A policy of type MSP decodes to a placeholder of that type,
    together with exactly one diagnostic: a warning that names the policy
    and the type. *)
Theorem msp_policy_warns_and_succeeds cp :
  policy_type cp = MSP →
  ∃ w, decodePolicy cp = Decoded (mkDecodedPolicy T_MSP Placeholder) [w] ∧
       level w = Warn ∧ about_policy w = policy_name cp ∧ about_type w = T_MSP.
Proof.
  intros Hty. unfold PolicyDecoder.decodePolicy. rewrite Hty.
  eexists. split; [reflexivity|]. by repeat split.
Qed.

(** C6.  A policy whose type is none of SIGNATURE, MSP and IMPLICIT_META
    fails with UnknownPolicyTypeError; a failure carries no decoded
    policy. *)
Theorem unknown_policy_type_fails cp :
  policy_type cp ≠ SIGNATURE → policy_type cp ≠ MSP → policy_type cp ≠ IMPLICIT_META →
  decodePolicy cp = Failed (UnknownPolicyTypeError (policy_type cp)) ∧
  ∀ p ws, decodePolicy cp ≠ Decoded p ws.
Proof.
  intros H1 H2 H3. unfold PolicyDecoder.decodePolicy.
  rewrite !bool_decide_eq_false_2 by assumption. by split.
Qed.

End Decoding.

Lemma msp_policy_warns_and_succeeds_witness :
  ∃ w, PolicyDecoder.decodePolicy (fun _ => None) (fun _ => None)
         (mkConfigPolicy "Admins" 2 [10; 0]) =
       Decoded (mkDecodedPolicy T_MSP Placeholder) [w] ∧
       level w = Warn ∧ about_policy w = "Admins" ∧ about_type w = T_MSP.
Proof.
  apply (msp_policy_warns_and_succeeds (fun _ => None) (fun _ => None)
           (mkConfigPolicy "Admins" 2 [10; 0])).
  reflexivity.
Defined.

Lemma unknown_policy_type_fails_witness :
  PolicyDecoder.decodePolicy (fun _ => None) (fun _ => None)
    (mkConfigPolicy "Admins" 7 []) = Failed (UnknownPolicyTypeError 7) ∧
  ∀ p ws, PolicyDecoder.decodePolicy (fun _ => None) (fun _ => None)
            (mkConfigPolicy "Admins" 7 []) ≠ Decoded p ws.
Proof.
  apply (unknown_policy_type_fails (fun _ => None) (fun _ => None)
           (mkConfigPolicy "Admins" 7 [])); discriminate.
Defined.

End PolicyDecoderFacts.

(** ** Laws of the event name filters *)
Module JsRegExpLaws.
Import JsRegExp.

(** A source that begins with a quantifier has nothing to repeat. *)
Lemma RegExp_nothing_to_repeat (q : ascii) (rest : string) :
  Laws.is_quantifier q → RegExp (String q rest) = None.
Proof.
  intros [-> | [-> | ->]]; reflexivity.
Qed.

Lemma parse_fuel_anchored_tail (l : list ascii) (fuel : nat) :
  ordinary l → (length l < fuel)%nat →
  parse_fuel fuel (l ++ ["$"%char]) = Some (literal l ++ [TEol]).
Proof.
  intros Hl. revert fuel. induction Hl as [|c l Hc Hl IH]; intros fuel Hf.
  - destruct fuel as [|fuel]; [simpl in Hf; lia|]. by destruct fuel.
  - destruct fuel as [|fuel]; simpl in Hf; [lia|].
    destruct (JsRegExpFacts.ordinary_char c Hc) as (Hbol & Heol & _).
    cbn [app parse_fuel]. rewrite !bool_decide_eq_false_2 by assumption.
    rewrite JsRegExpFacts.read_atom_ordinary by assumption.
    assert (Hq : read_quant (l ++ ["$"%char]) = (QOne, l ++ ["$"%char])).
    { destruct Hl as [|d l Hd Hl]; [reflexivity|].
      by apply JsRegExpFacts.read_quant_ordinary. }
    rewrite Hq, IH by lia. reflexivity.
Qed.

Lemma match_here_anchored_tail (l s : list ascii) (st : bool) :
  match_here (literal l ++ [TEol]) s st = true ↔ s = l.
Proof.
  revert s st. induction l as [|c l IH]; intros s st; cbn.
  - destruct s; split; done.
  - destruct s as [|d s]; [split; done|].
    rewrite andb_true_iff, bool_decide_eq_true, IH. split.
    + by intros [-> ->].
    + by intros [= -> ->].
Qed.

Lemma search_from_start (p : pattern) (s : list ascii) :
  search (TBol :: p) s false = false.
Proof. induction s as [|c s IH]; [done|]. cbn. apply IH. Qed.

(** The filter [^lit$] accepts the name [lit] and no other. *)
Lemma test_anchored (lit s : string) :
  ordinary (list_ascii_of_string lit) →
  ∃ re, RegExp (Laws.anchored lit) = Some re ∧ (test re s = true ↔ s = lit).
Proof.
  intros Hl. exists (TBol :: literal (list_ascii_of_string lit) ++ [TEol]). split.
  - unfold RegExp, Laws.anchored.
    change ("^" +:+ lit +:+ "$") with (String "^" (lit +:+ "$")).
    cbn [list_ascii_of_string length parse_fuel].
    rewrite bool_decide_eq_true_2 by done.
    rewrite JsRegExpFacts.list_ascii_of_string_app. cbn [list_ascii_of_string].
    rewrite parse_fuel_anchored_tail; [done|done|].
    rewrite length_app. cbn. lia.
  - unfold test.
    assert (Hs : ∀ l, search (TBol :: literal (list_ascii_of_string lit) ++ [TEol]) l true = true
                      ↔ l = list_ascii_of_string lit).
    { intros l. destruct l as [|c l]; cbn [search].
      - rewrite orb_false_r. cbn [match_here andb].
        apply match_here_anchored_tail.
      - rewrite search_from_start, orb_false_r. cbn [match_here andb].
        apply match_here_anchored_tail. }
    rewrite Hs. split.
    + intros H. by rewrite <- (string_of_list_ascii_of_string s), H,
        string_of_list_ascii_of_string.
    + by intros ->.
Qed.

End JsRegExpLaws.

(** ** Laws of the event hub *)
Module HubLaws.
Import Hub Props Laws.

(** *** Arguments and connection *)

(** Each call checks its own arguments before it looks at the connection:
    a missing argument is reported on any hub, connected or not, with or
    without a peer address, and the hub is left as it was. *)
Theorem missing_arguments_are_rejected_first w h id name txid ev er :
  registerChaincodeEvent w "" name ev er h = (Throw (Error "Missing ccid parameter"), h, []) ∧
  (id ≠ "" →
   registerChaincodeEvent w id "" ev er h =
     (Throw (Error "Missing eventname parameter"), h, [])) ∧
  (id ≠ "" → name ≠ "" →
   registerChaincodeEvent w id name None er h =
     (Throw (Error "Missing onEvent parameter"), h, [])) ∧
  registerBlockEvent w None er h = (Throw (Error "Missing onEvent parameter"), h, []) ∧
  registerTxEvent w "" ev er h = (Throw (Error "Missing txid parameter"), h, []) ∧
  (txid ≠ "" →
   registerTxEvent w txid None er h = (Throw (Error "Missing onEvent parameter"), h, [])) ∧
  unregisterChaincodeEvent None h = (Throw (Error "Missing cbe parameter"), h, []) ∧
  unregisterBlockEvent 0 h =
    (Throw (Error "Missing block_registration_number parameter"), h, []) ∧
  unregisterTxEvent "" h = (Throw (Error "Missing txid parameter"), h, []).
Proof.
  unfold registerChaincodeEvent, registerTxEvent.
  split; [done|]. split.
  { intros Hid. by rewrite bool_decide_eq_false_2. }
  split.
  { intros Hid Hname. by rewrite !bool_decide_eq_false_2. }
  split; [done|]. split; [done|]. split; [|done].
  intros Htx. by rewrite bool_decide_eq_false_2.
Qed.

(** [connect()] does nothing on a hub marked connected; otherwise it throws
    when no peer address is set and changes nothing, and with a peer address
    it arms the timeout, opens a new stream, sends the registration and
    marks the hub connected, after which a second [connect()] does
    nothing. *)
Theorem connect_opens_once h :
  (connected h = true → connect h = (Ok tt, h, [])) ∧
  (connected h = false → ep h = None →
     connect h = (Throw (Error "Must set peer address before connecting."), h, [])) ∧
  (connected h = false → is_Some (ep h) →
     let r := connect h in
     result r = Ok tt ∧ connected (hub_after r) = true ∧
     stream (hub_after r) = Some (next_conn h) ∧
     timers (hub_after r) = next_conn h :: timers h ∧
     trace r = [SetTimeout (next_conn h); OpenStream (next_conn h);
                StreamWrite (next_conn h) true] ∧
     connect (hub_after r) = (Ok tt, hub_after r, [])).
Proof.
  destruct_hub h. cbn [ep connected next_conn timers].
  split; [|split].
  - intros ->. by destruct ep_.
  - by intros -> ->.
  - intros -> [url ->]. by hub_unfold.
Qed.

(** A second [disconnect()] calls no callback and leaves the hub as the
    first one left it; it only repeats the unregister message and the end
    of the stream when there is a stream. *)
Theorem disconnect_twice h :
  let h1 := hub_after (disconnect h) in
  disconnect h1 = (Ok tt, h1, stream_close h).
Proof.
  cbn zeta. rewrite HubFacts.disconnect_eq. cbn [hub_after fst snd].
  rewrite HubFacts.disconnect_eq. reflexivity.
Qed.

(** *** Unregistration *)

(** Unregistering the same block number, transaction id or chaincode handle
    a second time gives the same result as the first time and changes
    nothing more. *)
Theorem unregister_twice_is_noop h n txid handle :
  (let r := unregisterBlockEvent n h in
   unregisterBlockEvent n (hub_after r) = (result r, hub_after r, [])) ∧
  (let r := unregisterTxEvent txid h in
   unregisterTxEvent txid (hub_after r) = (result r, hub_after r, [])) ∧
  (let r := unregisterChaincodeEvent handle h in
   unregisterChaincodeEvent handle (hub_after r) = (result r, hub_after r, [])).
Proof.
  destruct_hub h. split; [|split]; cbn zeta.
  - unfold unregisterBlockEvent. case_bool_decide; hub_unfold; [done|].
    by rewrite !delete_delete_eq.
  - unfold unregisterTxEvent. case_bool_decide; hub_unfold; [done|].
    by rewrite !delete_delete_eq.
  - destruct handle as [cbe|]; [|done].
    unfold unregisterChaincodeEvent. hub_unfold.
    destruct (cR !! ccid cbe) as [cbtable|] eqn:Hl.
    + case_bool_decide as Hempty; hub_unfold.
      * by rewrite lookup_delete_eq.
      * rewrite lookup_insert_eq.
        assert (Hff : set_delete cbe (set_delete cbe cbtable) = set_delete cbe cbtable).
        { unfold set_delete. rewrite list_filter_filter. apply list_filter_iff. tauto. }
        rewrite Hff, bool_decide_eq_false_2 by done. hub_unfold.
        by rewrite insert_insert_eq.
    + hub_unfold. by rewrite Hl.
Qed.

(** On a connected hub whose counter is a number not in use, a block
    registration returns the counter and files the listener under it, and
    unregistering that number gives back the two block tables as they
    were. *)
Theorem block_registration_round_trip w h url c ev er :
  ep h = Some url → connected h = true → stream h = Some c →
  block_registrant_count h ≠ 0 →
  blockOnEvents h !! block_registrant_count h = None →
  blockOnErrors h !! block_registrant_count h = None →
  let n := block_registrant_count h in
  let r := registerBlockEvent w (Some ev) er h in
  let u := unregisterBlockEvent n (hub_after r) in
  result r = Ok n ∧
  blockOnEvents (hub_after r) = <[n := ev]> (blockOnEvents h) ∧
  result u = Ok tt ∧
  blockOnEvents (hub_after u) = blockOnEvents h ∧
  blockOnErrors (hub_after u) = blockOnErrors h.
Proof.
  intros Hep Hc Hst Hn HbE HbX.
  destruct_hub h; simpl in Hep, Hc, Hst, Hn, HbE, HbX; subst.
  destruct w as [paused state].
  unfold registerBlockEvent, unregisterBlockEvent.
  rewrite bool_decide_eq_false_2 by done.
  destruct er as [er|], fr, paused, (state =? 2) eqn:Hs;
    hub_unfold; rewrite ?Hs; hub_unfold;
    rewrite ?delete_insert_eq, ?delete_id by done; done.
Qed.

Lemma block_registration_round_trip_witness :
  let r := registerBlockEvent idle (Some 1%nat) (Some 2%nat) connected_hub in
  let u := unregisterBlockEvent 1 (hub_after r) in
  result r = Ok 1 ∧
  blockOnEvents (hub_after r) = <[1 := 1%nat]> (blockOnEvents connected_hub) ∧
  result u = Ok tt ∧
  blockOnEvents (hub_after u) = blockOnEvents connected_hub ∧
  blockOnErrors (hub_after u) = blockOnErrors connected_hub.
Proof.
  apply (block_registration_round_trip idle connected_hub peer 0%nat 1%nat (Some 2%nat));
    [reflexivity | reflexivity | reflexivity | discriminate
    | vm_compute; reflexivity | vm_compute; reflexivity].
Defined.

(** On a connected hub, when the entry about to be allocated is not already
    in the registrant set of its chaincode, unregistering the handle that a
    chaincode registration returned gives back the table of registrant sets
    as it was: the set loses the entry, and a set left empty is removed. *)
Theorem chaincode_registration_round_trip w h url c id name re ev er :
  ep h = Some url → connected h = true → stream h = Some c →
  id ≠ "" → name ≠ "" → JsRegExp.RegExp name = Some re →
  (∀ cbtable, chaincodeRegistrants h !! id = Some cbtable →
     cbtable ≠ [] ∧ ∀ x, x ∈ cbtable → cbe_id x ≠ next_object h) →
  let cbe := mkChainCodeCBE (next_object h) id re ev er in
  let r := registerChaincodeEvent w id name (Some ev) er h in
  let u := unregisterChaincodeEvent (Some cbe) (hub_after r) in
  result r = Ok cbe ∧ result u = Ok tt ∧
  chaincodeRegistrants (hub_after u) = chaincodeRegistrants h.
Proof.
  intros Hep Hc Hst Hid Hname Hre Hfresh cbe r u.
  destruct (HubFacts.registerChaincodeEvent_live w h url c id name re ev er
              Hep Hc Hst Hid Hname Hre) as (Hr & Htable & _).
  fold cbe r in Hr, Htable. split; [done|].
  set (cR0 := chaincodeRegistrants h) in *. clearbody cR0.
  subst u. destruct (hub_after r) as [cR' cnt bE bX tE tX ep_ st conn fr nc tm no].
  cbn [chaincodeRegistrants] in Htable. subst cR'.
  unfold unregisterChaincodeEvent. hub_unfold. change (ccid cbe) with id.
  rewrite lookup_insert_eq.
  destruct (cR0 !! id) as [old|] eqn:Hold;
    cbn [default from_option Datatypes.id].
  - destruct (Hfresh old eq_refl) as [Hne Hids].
    assert (Hdel : set_delete cbe (old ++ [cbe]) = old).
    { unfold set_delete. rewrite filter_app.
      rewrite (filter_cons_False _ cbe) by (intros H; by apply H).
      rewrite filter_nil, app_nil_r.
      clear -Hids. induction old as [|x old IH]; [done|].
      rewrite filter_cons_True by (apply Hids; left).
      f_equal. apply IH. intros y Hy. apply Hids. by right. }
    rewrite Hdel, bool_decide_eq_false_2 by done. hub_unfold.
    split; [done|]. rewrite insert_insert_eq. by apply insert_id.
  - cbn [app]. unfold set_delete.
    rewrite filter_cons_False by (intros H; by apply H).
    rewrite filter_nil, bool_decide_eq_true_2 by done. hub_unfold.
    split; [done|]. rewrite delete_insert_eq. by apply delete_id.
Qed.

Lemma chaincode_registration_round_trip_witness :
  let cbe := mkChainCodeCBE 1 "cc1" [JsRegExp.TAtom JsRegExp.ADot JsRegExp.QStar]
               5%nat (Some 6%nat) in
  let r := registerChaincodeEvent ready "cc1" ".*" (Some 5%nat) (Some 6%nat) cc1_hub in
  let u := unregisterChaincodeEvent (Some cbe) (hub_after r) in
  result r = Ok cbe ∧ result u = Ok tt ∧
  chaincodeRegistrants (hub_after u) = chaincodeRegistrants cc1_hub.
Proof.
  apply (chaincode_registration_round_trip ready cc1_hub peer 0%nat "cc1" ".*"
           [JsRegExp.TAtom JsRegExp.ADot JsRegExp.QStar] 5%nat (Some 6%nat));
    [reflexivity | reflexivity | reflexivity | discriminate | discriminate
    | reflexivity |].
  intros cbtable Htable. vm_compute in Htable. injection Htable as <-.
  split; [discriminate|].
  intros x Hx%list_elem_of_singleton. subst x. vm_compute. discriminate.
Defined.

(** A filter that begins with a quantifier does not compile: on a
    connected hub the chaincode registration throws a SyntaxError and the
    hub is left as it was, with nothing registered. *)
Theorem filter_with_nothing_to_repeat_is_rejected w h url id q rest ev er :
  ep h = Some url → connected h = true → id ≠ "" → is_quantifier q →
  ∃ msg, registerChaincodeEvent w id (String q rest) (Some ev) er h =
           (Throw (SyntaxError msg), h, []).
Proof.
  intros Hep Hc Hid Hq. eexists.
  unfold registerChaincodeEvent, new_ChainCodeCBE.
  rewrite (JsRegExpLaws.RegExp_nothing_to_repeat q rest Hq).
  rewrite !bool_decide_eq_false_2 by done.
  destruct_hub h; simpl in Hep, Hc; subst.
  by destruct er; hub_unfold.
Qed.

Lemma filter_with_nothing_to_repeat_is_rejected_witness :
  ∃ msg, registerChaincodeEvent ready "cc1" "*evt" (Some 1%nat) (Some 2%nat) connected_hub =
           (Throw (SyntaxError msg), connected_hub, []).
Proof.
  apply (filter_with_nothing_to_repeat_is_rejected ready connected_hub peer "cc1"
           "*"%char "evt" 1%nat (Some 2%nat));
    [reflexivity | reflexivity | discriminate | by left].
Defined.

(** *** The three passes *)

Section Passes.

Variable TxValidationCode : list (string * Z).
Variable HeaderType : list (string * Z).

(** The block pass calls every registered block callback once with the
    block, and nothing else. *)
Theorem block_pass_reaches_every_listener h block :
  let t := _processBlockOnEvents h block in
  (∀ e, e ∈ t ↔ ∃ n cb, blockOnEvents h !! n = Some cb ∧ e = CallBlock cb block) ∧
  length t = size (blockOnEvents h).
Proof.
  unfold _processBlockOnEvents. case_bool_decide as Hsize; cbn zeta.
  - split; [|done]. apply map_size_empty_iff in Hsize. rewrite Hsize.
    intros e. split; [by intros ?%elem_of_nil|].
    intros (n & cb & Hn & _). by rewrite lookup_empty in Hn.
  - split.
    + intros e. rewrite list_elem_of_fmap. split.
      * intros ([n cb] & -> & Hin). apply elem_of_map_to_list in Hin. eauto.
      * intros (n & cb & Hn & ->). exists (n, cb). split; [done|].
        by apply elem_of_map_to_list.
    + rewrite length_fmap. apply length_map_to_list.
Qed.

(** The calls of the transaction pass for one id, whatever the size of the
    registry. *)
Lemma calls_for_pass h block txid :
  calls_for txid (_processTxOnEvents TxValidationCode h block) =
  match transactionOnEvents h !! txid with
  | None => []
  | Some cb =>
      omap (fun p : nat * Envelope =>
              if bool_decide (ch_tx_id (channel_header p.2) = txid)
              then Some (CallTx cb txid
                           (convertValidationCode TxValidationCode
                              (transactions_filter block !! p.1)))
              else None)
           (imap pair (envelopes block))
  end.
Proof.
  unfold _processTxOnEvents. case_bool_decide as Hsize.
  - apply map_size_empty_iff in Hsize. by rewrite Hsize, lookup_empty.
  - apply HubFacts.calls_for_tx_loop.
Qed.

(** A transaction id has one listener: on a connected hub a registration
    for an id replaces the event callback of that id, so every later call
    for the id goes to the new callback.  The error callback of the id is
    replaced only when the call supplies one; otherwise the one of the
    earlier registration stays. *)
Theorem tx_registration_replaces w h url c txid ev er :
  ep h = Some url → connected h = true → stream h = Some c → txid ≠ "" →
  let r := registerTxEvent w txid (Some ev) er h in
  result r = Ok tt ∧
  transactionOnEvents (hub_after r) = <[txid := ev]> (transactionOnEvents h) ∧
  transactionOnErrors (hub_after r) !! txid =
    match er with
    | Some e => Some e
    | None => transactionOnErrors h !! txid
    end ∧
  ∀ block e,
    e ∈ calls_for txid (_processTxOnEvents TxValidationCode (hub_after r) block) →
    ∃ code, e = CallTx ev txid code.
Proof.
  intros Hep Hc Hst Htx r.
  assert (Hr : result r = Ok tt ∧
               transactionOnEvents (hub_after r) = <[txid := ev]> (transactionOnEvents h) ∧
               transactionOnErrors (hub_after r) !! txid =
                 match er with
                 | Some e => Some e
                 | None => transactionOnErrors h !! txid
                 end).
  { subst r. destruct_hub h; simpl in Hep, Hc, Hst; subst.
    destruct w as [paused state].
    unfold registerTxEvent. rewrite bool_decide_eq_false_2 by done.
    destruct er as [er|], fr, paused, (state =? 2) eqn:Hs;
      hub_unfold; rewrite ?Hs; hub_unfold; rewrite ?lookup_insert_eq; done. }
  destruct Hr as (Hres & HtE & HtX). repeat split; try done.
  intros block e. rewrite calls_for_pass, HtE, lookup_insert_eq.
  intros (p & _ & Hp)%list_elem_of_omap.
  case_bool_decide; [|done]. injection Hp as <-. eauto.
Qed.

(** After [unregisterTxEvent(txid)] no block produces a call for that id,
    and the calls for every other id are what they were. *)
Theorem tx_unregistration_silences h txid :
  txid ≠ "" →
  let u := unregisterTxEvent txid h in
  result u = Ok tt ∧
  transactionOnEvents (hub_after u) !! txid = None ∧
  transactionOnErrors (hub_after u) !! txid = None ∧
  ∀ block,
    calls_for txid (_processTxOnEvents TxValidationCode (hub_after u) block) = [] ∧
    ∀ other, other ≠ txid →
      calls_for other (_processTxOnEvents TxValidationCode (hub_after u) block) =
      calls_for other (_processTxOnEvents TxValidationCode h block).
Proof.
  intros Htx u.
  assert (Hu : result u = Ok tt ∧
               transactionOnEvents (hub_after u) = delete txid (transactionOnEvents h) ∧
               transactionOnErrors (hub_after u) = delete txid (transactionOnErrors h)).
  { subst u. destruct_hub h. unfold unregisterTxEvent.
    rewrite bool_decide_eq_false_2 by done. by hub_unfold. }
  destruct Hu as (Hres & HtE & HtX).
  split; [done|]. rewrite HtE, HtX, !lookup_delete_eq. split; [done|]. split; [done|].
  intros block. rewrite !calls_for_pass, HtE, lookup_delete_eq. split; [done|].
  intros other Hother. rewrite !calls_for_pass, HtE. by rewrite lookup_delete_ne.
Qed.

Lemma cc_loop_skip h pre env post :
  cc_loop_body HeaderType h env = ([], Normal) →
  cc_loop HeaderType h (pre ++ env :: post) = cc_loop HeaderType h (pre ++ post).
Proof.
  intros Hbody. induction pre as [|e pre IH]; cbn [app cc_loop].
  - by rewrite Hbody.
  - destruct (cc_loop_body HeaderType h e) as [calls []]; [|done]. by rewrite IH.
Qed.

(** An envelope that is not an endorser transaction, or whose chaincode
    event cannot be read (the TypeError is caught), is passed over: the
    chaincode pass on the block is the pass on the block without it. *)
Theorem chaincode_pass_skips_unreadable_envelopes h n codes pre env post :
  Some (ch_type (channel_header env)) ≠ _header_types HeaderType !! 3 ∨
  read_ccEvent (data env) = None →
  _processChainCodeOnEvents HeaderType h (mkBlock n codes (pre ++ env :: post)) =
  _processChainCodeOnEvents HeaderType h (mkBlock n codes (pre ++ post)).
Proof.
  intros Hskip. unfold _processChainCodeOnEvents. case_bool_decide; [done|].
  cbn [envelopes]. apply cc_loop_skip. unfold cc_loop_body.
  destruct Hskip as [Hty | Hev].
  - by rewrite bool_decide_eq_false_2.
  - case_bool_decide; [|done]. by rewrite Hev.
Qed.

Lemma cc_loop_body_calls h env e :
  e ∈ (cc_loop_body HeaderType h env).1 ↔ cc_call_due HeaderType h [env] e.
Proof.
  unfold cc_loop_body, cc_call_due. split.
  - case_bool_decide as Hty; [|by intros ?%elem_of_nil].
    destruct (read_ccEvent (data env)) as [ev|] eqn:Hev; [|by intros ?%elem_of_nil].
    destruct (chaincodeRegistrants h !! chaincode_id ev) as [tbl|] eqn:Htbl;
      [|by intros ?%elem_of_nil].
    cbn [fst]. unfold cc_notify.
    intros (cbe & -> & [Ht Hcbe]%list_elem_of_filter)%list_elem_of_fmap.
    exists env, ev, tbl, cbe. repeat split; try done. by apply list_elem_of_singleton.
  - intros (env' & ev & tbl & cbe & ->%list_elem_of_singleton
            & Hty & Hev & Htbl & Hcbe & Ht & ->).
    rewrite bool_decide_eq_true_2, Hev, Htbl by done. cbn [fst]. unfold cc_notify.
    apply list_elem_of_fmap. exists cbe. split; [done|].
    by apply list_elem_of_filter.
Qed.

Lemma cc_call_due_cons h env envs e :
  cc_call_due HeaderType h (env :: envs) e ↔
  cc_call_due HeaderType h [env] e ∨ cc_call_due HeaderType h envs e.
Proof.
  unfold cc_call_due. split.
  - intros (env' & ev & tbl & cbe & [->|Hin]%elem_of_cons & H).
    + left. exists env, ev, tbl, cbe. split; [by apply list_elem_of_singleton | done].
    + right. exists env', ev, tbl, cbe. done.
  - intros [(env' & ev & tbl & cbe & ->%list_elem_of_singleton & H)
           |(env' & ev & tbl & cbe & Hin & H)].
    + exists env, ev, tbl, cbe. split; [by left | done].
    + exists env', ev, tbl, cbe. split; [by right | done].
Qed.

Lemma cc_loop_sound h envs e :
  e ∈ cc_loop HeaderType h envs → cc_call_due HeaderType h envs e.
Proof.
  induction envs as [|env envs IH]; cbn [cc_loop]; [by intros ?%elem_of_nil|].
  rewrite cc_call_due_cons.
  pose proof (cc_loop_body_calls h env e) as Hbody.
  destruct (cc_loop_body HeaderType h env) as [calls []]; cbn [fst] in Hbody.
  - intros [He|He]%elem_of_app; [left; by apply Hbody | right; by apply IH].
  - intros He. left. by apply Hbody.
Qed.

Lemma cc_loop_complete h envs e :
  all_chaincodes_registered HeaderType h envs →
  cc_call_due HeaderType h envs e → e ∈ cc_loop HeaderType h envs.
Proof.
  induction envs as [|env envs IH]; intros Hall; cbn [cc_loop].
  - intros (env & ? & ? & ? & Hin & _). by apply elem_of_nil in Hin.
  - rewrite cc_call_due_cons.
    pose proof (cc_loop_body_calls h env e) as Hbody.
    assert (Hnormal : (cc_loop_body HeaderType h env).2 = Normal).
    { unfold cc_loop_body. case_bool_decide as Hty; [|done].
      destruct (read_ccEvent (data env)) as [ev|] eqn:Hev; [|done].
      destruct (Hall env ev ltac:(left) Hty Hev) as [tbl Htbl]. by rewrite Htbl. }
    destruct (cc_loop_body HeaderType h env) as [calls c]. cbn [fst snd] in *. subst c.
    intros [He|He]; apply elem_of_app; [left; by apply Hbody|right].
    apply IH; [|done]. intros env' ev Hin. apply Hall. by right.
Qed.

(** The chaincode pass never calls a listener without cause: every call it
    makes is for an endorser transaction of the block, to an entry of the
    registrant set of the chaincode of its event, whose filter matches the
    event name. *)
Theorem chaincode_pass_calls_only_matching_listeners h block :
  Forall (cc_call_due HeaderType h (envelopes block))
         (_processChainCodeOnEvents HeaderType h block).
Proof.
  apply Forall_forall. intros e.
  unfold _processChainCodeOnEvents. case_bool_decide as Hsize.
  - by intros ?%elem_of_nil.
  - apply cc_loop_sound.
Qed.

(** When every chaincode event of the block is of a chaincode that has a
    registrant set, the pass misses nothing: the calls it makes are exactly
    those owed to the listeners. *)
Theorem chaincode_pass_calls_every_matching_listener h block e :
  all_chaincodes_registered HeaderType h (envelopes block) →
  (e ∈ _processChainCodeOnEvents HeaderType h block ↔
   cc_call_due HeaderType h (envelopes block) e).
Proof.
  intros Hall. unfold _processChainCodeOnEvents. case_bool_decide as Hsize.
  - split; [by intros ?%elem_of_nil|].
    intros (env & ev & tbl & cbe & _ & _ & _ & Htbl & _).
    apply map_size_empty_iff in Hsize. by rewrite Hsize, lookup_empty in Htbl.
  - split; [apply cc_loop_sound | by apply cc_loop_complete].
Qed.

End Passes.

Lemma tx_registration_replaces_witness :
  let r := registerTxEvent ready "tx2" (Some 8%nat) None tx2_hub in
  result r = Ok tt ∧
  transactionOnEvents (hub_after r) = <["tx2" := 8%nat]> (transactionOnEvents tx2_hub) ∧
  transactionOnErrors (hub_after r) !! "tx2" = transactionOnErrors tx2_hub !! "tx2" ∧
  ∀ block e,
    e ∈ calls_for "tx2" (_processTxOnEvents protos_TxValidationCode (hub_after r) block) →
    ∃ code, e = CallTx 8%nat "tx2" code.
Proof.
  apply (tx_registration_replaces protos_TxValidationCode ready tx2_hub peer 0%nat
           "tx2" 8%nat None);
    [reflexivity | reflexivity | reflexivity | discriminate].
Defined.

Lemma tx_unregistration_silences_witness :
  let u := unregisterTxEvent "tx2" tx2_hub in
  result u = Ok tt ∧
  transactionOnEvents (hub_after u) !! "tx2" = None ∧
  transactionOnErrors (hub_after u) !! "tx2" = None ∧
  ∀ block,
    calls_for "tx2" (_processTxOnEvents protos_TxValidationCode (hub_after u) block) = [] ∧
    ∀ other, other ≠ "tx2" →
      calls_for other (_processTxOnEvents protos_TxValidationCode (hub_after u) block) =
      calls_for other (_processTxOnEvents protos_TxValidationCode tx2_hub block).
Proof.
  apply (tx_unregistration_silences protos_TxValidationCode tx2_hub "tx2").
  discriminate.
Defined.

(** A configuration envelope between the two transactions changes nothing
    for the listener of cc1. *)
Lemma chaincode_pass_skips_unreadable_envelopes_witness :
  _processChainCodeOnEvents common_HeaderType cc1_hub
    (mkBlock 5 [0; 0]
       ([event_envelope "ENDORSER_TRANSACTION" "tx2" cc1_event] ++
        config_envelope :: [event_envelope "ENDORSER_TRANSACTION" "tx2" cc1_event])) =
  _processChainCodeOnEvents common_HeaderType cc1_hub
    (mkBlock 5 [0; 0]
       ([event_envelope "ENDORSER_TRANSACTION" "tx2" cc1_event] ++
        [event_envelope "ENDORSER_TRANSACTION" "tx2" cc1_event])).
Proof.
  apply (chaincode_pass_skips_unreadable_envelopes common_HeaderType cc1_hub 5 [0; 0]).
  right. reflexivity.
Defined.

Lemma chaincode_pass_calls_every_matching_listener_witness :
  CallCC 1%nat cc1_event ∈
    _processChainCodeOnEvents common_HeaderType cc1_hub
      (mkBlock 5 [0] [event_envelope "ENDORSER_TRANSACTION" "tx2" cc1_event]) ↔
  cc_call_due common_HeaderType cc1_hub
    [event_envelope "ENDORSER_TRANSACTION" "tx2" cc1_event] (CallCC 1%nat cc1_event).
Proof.
  apply (chaincode_pass_calls_every_matching_listener common_HeaderType cc1_hub
           (mkBlock 5 [0] [event_envelope "ENDORSER_TRANSACTION" "tx2" cc1_event])).
  intros env ccEvent Hin%list_elem_of_singleton _ Hev. subst env.
  injection Hev as <-. vm_compute. eauto.
Defined.

(** *** Filters *)

(** A listener whose filter is [.*] is called for every event of its
    chaincode, whatever the name, the empty name included. *)
Theorem dot_star_filter_matches_everything h id ev er ccEvent :
  ∃ cbe, result (new_ChainCodeCBE id ".*" ev er h) = Ok cbe ∧
         onEvent cbe = ev ∧
         cc_notify ccEvent [cbe] = [CallCC ev ccEvent].
Proof.
  destruct (JsRegExpFacts.test_dot_star (event_name ccEvent)) as (re & Hre & Ht).
  unfold new_ChainCodeCBE. rewrite Hre. eexists.
  split; [reflexivity|]. split; [reflexivity|].
  unfold cc_notify. cbn [eventNameFilter onEvent].
  by rewrite filter_cons_True, filter_nil.
Qed.

(** A listener whose filter is [^name$], for a name of ordinary characters,
    is called for the events of that exact name and for no other. *)
Theorem anchored_filter_matches_exactly h id lit ev er ccEvent :
  JsRegExp.ordinary (list_ascii_of_string lit) →
  ∃ cbe, result (new_ChainCodeCBE id (anchored lit) ev er h) = Ok cbe ∧
         onEvent cbe = ev ∧
         (event_name ccEvent = lit → cc_notify ccEvent [cbe] = [CallCC ev ccEvent]) ∧
         (event_name ccEvent ≠ lit → cc_notify ccEvent [cbe] = []).
Proof.
  intros Hl.
  destruct (JsRegExpLaws.test_anchored lit (event_name ccEvent) Hl) as (re & Hre & Ht).
  unfold new_ChainCodeCBE. rewrite Hre. eexists.
  split; [reflexivity|]. split; [reflexivity|].
  unfold cc_notify. cbn [eventNameFilter onEvent]. split.
  - intros Hname. apply Ht in Hname. by rewrite filter_cons_True, filter_nil.
  - intros Hname. rewrite filter_cons_False; [done|].
    intros Htest. by apply Hname, Ht.
Qed.

Lemma anchored_filter_matches_exactly_witness :
  ∃ cbe, result (new_ChainCodeCBE "cc1" "^evtA$" 1%nat None connected_hub) = Ok cbe ∧
         onEvent cbe = 1%nat ∧
         (event_name (mkChaincodeEvent "cc1" "tx1" "evtAB" "") = "evtA" →
          cc_notify (mkChaincodeEvent "cc1" "tx1" "evtAB" "") [cbe] =
            [CallCC 1%nat (mkChaincodeEvent "cc1" "tx1" "evtAB" "")]) ∧
         (event_name (mkChaincodeEvent "cc1" "tx1" "evtAB" "") ≠ "evtA" →
          cc_notify (mkChaincodeEvent "cc1" "tx1" "evtAB" "") [cbe] = []).
Proof.
  apply (anchored_filter_matches_exactly connected_hub "cc1" "evtA" 1%nat None
           (mkChaincodeEvent "cc1" "tx1" "evtAB" "")).
  unfold JsRegExp.ordinary. simpl. repeat constructor.
Defined.

(** *** The enumeration tables *)

Lemma invert_enum_acc (enum : list (string * Z)) (acc : gmap Z string) v k :
  NoDup (enum.*2) →
  (fold_left (fun table kv => <[kv.2 := kv.1]> table) enum acc !! v = Some k) ↔
  (k, v) ∈ enum ∨ ((v ∉ enum.*2) ∧ acc !! v = Some k).
Proof.
  revert acc. induction enum as [|[k' v'] enum IH]; intros acc Hnd;
    cbn [fold_left fmap list_fmap].
  - split; [intros H; right; split; [by intros ?%elem_of_nil | done]|].
    intros [?%elem_of_nil | [_ H]]; done.
  - apply NoDup_cons in Hnd as [Hv' Hnd]. cbn [snd fst] in *.
    rewrite IH by done. rewrite elem_of_cons, not_elem_of_cons. split.
    + intros [Hin | [Hv Hl]]; [left; by right|].
      apply lookup_insert_Some in Hl as [[<- <-] | [Hne Hl]]; [left; by left | right; done].
    + intros [[[= -> ->] | Hin] | [[Hne Hv] Hl]].
      * right. split; [done|]. apply lookup_insert_eq.
      * by left.
      * right. split; [done|]. by rewrite lookup_insert_ne.
Qed.

(** When the numbers of the enumeration are distinct, a validation code is
    turned into the name the enumeration gives it, and a code the
    enumeration does not have, or the entry of an index past the end of the
    array, into no name at all. *)
Theorem validation_code_names (TxValidationCode : list (string * Z)) code name :
  NoDup (TxValidationCode.*2) →
  (convertValidationCode TxValidationCode (Some code) = Some name ↔
   (name, code) ∈ TxValidationCode) ∧
  (code ∉ (TxValidationCode.*2) → convertValidationCode TxValidationCode (Some code) = None) ∧
  convertValidationCode TxValidationCode None = None.
Proof.
  intros Hnd.
  assert (Hiff : ∀ k, convertValidationCode TxValidationCode (Some code) = Some k ↔
                      (k, code) ∈ TxValidationCode).
  { intros k. cbn. unfold _validation_codes, invert_enum.
    rewrite invert_enum_acc by done. rewrite lookup_empty.
    split; [intros [?|[_ [=]]]; done | by left]. }
  split; [apply Hiff|]. split; [|done].
  intros Hout.
  destruct (convertValidationCode TxValidationCode (Some code)) as [k|] eqn:Hk; [|done].
  destruct (Hiff k) as [Hin _]. specialize (Hin eq_refl).
  exfalso. apply Hout. apply list_elem_of_fmap. by exists (k, code).
Qed.

Lemma validation_code_names_witness :
  (convertValidationCode protos_TxValidationCode (Some 0) = Some "VALID" ↔
   ("VALID", 0) ∈ protos_TxValidationCode) ∧
  (0 ∉ (protos_TxValidationCode.*2) →
   convertValidationCode protos_TxValidationCode (Some 0) = None) ∧
  convertValidationCode protos_TxValidationCode None = None.
Proof.
  apply (validation_code_names protos_TxValidationCode 0 "VALID").
  vm_compute. apply NoDup_singleton.
Defined.

End HubLaws.

(** ** Signals of the stream and invariants of a run *)
Module RunLaws.
Import Hub Props Laws.

Lemma cc_table_inv_empty n : cc_table_inv n ∅.
Proof. intros id tbl. by rewrite lookup_empty. Qed.

Lemma cc_table_inv_add n table id re ev er :
  cc_table_inv n table →
  cc_table_inv (S n)
    (<[id := default [] (table !! id) ++ [mkChainCodeCBE n id re ev er]]> table).
Proof.
  intros Hinv id' tbl Hl. apply lookup_insert_Some in Hl as [[<- <-] | [Hne Hl]].
  - destruct (table !! id) as [old|] eqn:Hold; cbn [default from_option Datatypes.id].
    + destruct (Hinv id old Hold) as (H1 & H2 & H3). split; [|split].
      * by destruct old.
      * intros cbe [Hcbe | Hcbe%list_elem_of_singleton]%elem_of_app.
        -- destruct (H2 cbe Hcbe). split; [done|lia].
        -- subst cbe. cbn. split; [done|lia].
      * rewrite fmap_app. apply NoDup_app. split; [done|]. split; [|apply NoDup_singleton].
        intros x Hx Hx'%list_elem_of_singleton. cbn in Hx'. subst x.
        apply list_elem_of_fmap in Hx as (cbe & Heq & Hcbe).
        destruct (H2 cbe Hcbe). lia.
    + split; [done|]. split; [|apply NoDup_singleton].
      intros cbe Hcbe%list_elem_of_singleton. subst cbe. cbn. split; [done|lia].
  - destruct (Hinv id' tbl Hl) as (H1 & H2 & H3). split; [done|]. split; [|done].
    intros cbe Hcbe. destruct (H2 cbe Hcbe). split; [done|lia].
Qed.

Lemma cc_table_inv_delete n table id :
  cc_table_inv n table → cc_table_inv n (delete id table).
Proof.
  intros Hinv id' tbl Hl. apply lookup_delete_Some in Hl as [_ Hl]. eauto.
Qed.

Lemma cc_table_inv_remove n table cbe cbtable :
  cc_table_inv n table → table !! ccid cbe = Some cbtable →
  set_delete cbe cbtable ≠ [] →
  cc_table_inv n (<[ccid cbe := set_delete cbe cbtable]> table).
Proof.
  intros Hinv Hold Hne id' tbl Hl.
  apply lookup_insert_Some in Hl as [[<- <-] | [Hne' Hl]]; [|eauto].
  destruct (Hinv _ _ Hold) as (H1 & H2 & H3). split; [done|]. split.
  - intros x Hx. apply list_elem_of_filter in Hx as [_ Hx]. eauto.
  - unfold set_delete. clear -H3.
    induction cbtable as [|x l IH]; [constructor|].
    rewrite fmap_cons in H3. apply NoDup_cons in H3 as [Hx Hl].
    destruct (decide (cbe_id x ≠ cbe_id cbe)) as [Hk|Hk].
    + rewrite filter_cons_True by done. rewrite fmap_cons. apply NoDup_cons.
      split; [|by apply IH].
      intros (y & Hy & [_ Hin]%list_elem_of_filter)%list_elem_of_fmap.
      apply Hx. rewrite Hy. by apply list_elem_of_fmap_2.
    + rewrite filter_cons_False by done. by apply IH.
Qed.

Section Runs.

Variable TxValidationCode : list (string * Z).
Variable HeaderType : list (string * Z).

Local Abbreviation step := (Hub.step TxValidationCode HeaderType).
Local Abbreviation run := (Hub.run TxValidationCode HeaderType).

(** After any terminal signal the hub is marked disconnected. *)
Lemma terminal_signal_disconnects c k h :
  connected (hub_after (terminal TxValidationCode HeaderType c k h)) = false.
Proof.
  destruct_hub h. destruct k, conn, st; by hub_unfold.
Qed.

(** A stream may say more than once that it is over.  Whatever signal came
    first (end, error or an unregister message), a further one calls no
    callback and sends nothing: it only clears its timer. *)
Theorem terminal_signals_are_idempotent c c' k k' h :
  let h1 := hub_after (terminal TxValidationCode HeaderType c k h) in
  let r := terminal TxValidationCode HeaderType c' k' h1 in
  result r = Ok tt ∧ trace r = [ClearTimeout c'] ∧
  hub_after r = set_timers (filter (fun t => t ≠ c') (timers h1)) h1.
Proof.
  cbn zeta. pose proof (terminal_signal_disconnects c k h) as Hd.
  destruct (hub_after (terminal TxValidationCode HeaderType c k h))
    as [cR cnt bE bX tE tX ep_ st conn fr nc tm no].
  cbn [connected] in Hd. subst conn.
  destruct k'; by hub_unfold.
Qed.

(** Once a stream has delivered a message, ended or failed, the timeout of
    its connection is disarmed: its expiry does nothing. *)
Theorem stream_activity_disarms_timeout c event h :
  timeout_is_quiet c (hub_after (on_data TxValidationCode HeaderType c event h)) ∧
  timeout_is_quiet c (hub_after (on_end c h)) ∧
  timeout_is_quiet c (hub_after (on_error c h)).
Proof.
  assert (Hq : ∀ h1, c ∉ timers h1 → timeout_is_quiet c h1).
  { intros h1 Hc. destruct h1 as [cR cnt bE bX tE tX ep_ st conn fr nc tm no].
    cbn [timers] in Hc. unfold timeout_is_quiet. hub_unfold.
    by rewrite bool_decide_eq_false_2. }
  assert (Hf : ∀ tm : list nat, c ∉ filter (fun t => t ≠ c) tm).
  { intros tm [Hne _]%list_elem_of_filter. done. }
  destruct_hub h.
  split; [|split]; apply Hq.
  - destruct event as [[]| | |], conn, st; hub_unfold; apply Hf.
  - destruct conn, st; hub_unfold; apply Hf.
  - destruct conn, st; hub_unfold; apply Hf.
Qed.

(** Each input keeps the invariants. *)
Lemma step_invariants i h :
  connection_inv h ∧ error_tables_inv h ∧ chaincode_inv h →
  connection_inv (step i h).1.2 ∧ error_tables_inv (step i h).1.2 ∧
  chaincode_inv (step i h).1.2.
Proof.
  unfold connection_inv, error_tables_inv, chaincode_inv.
  intros ((H1 & H2 & H3 & H4) & (H5 & H6) & Hcc). step_cases i h.
  all: cbn [connected stream ep next_conn timers blockOnEvents blockOnErrors
            transactionOnEvents transactionOnErrors chaincodeRegistrants
            next_object] in *.
  all: try inv_contradiction.
  all: split; [|split];
    [ close_invariants
    | close_invariants
    | first [ assumption | apply cc_table_inv_empty | by apply cc_table_inv_add
            | by apply cc_table_inv_delete | by apply cc_table_inv_remove ] ].
Qed.

Lemma step_block_keys_inv i h :
  block_registrant_count h < 2 ^ 53 →
  block_keys_inv h → block_keys_inv (step i h).1.2.
Proof.
  unfold block_keys_inv. intros Hb [H1 H2]. step_cases i h.
  all: cbn [blockOnEvents block_registrant_count] in *.
  all: rewrite ?HubFacts.js_succ_exact by done.
  all: close_invariants.
  all: repeat match goal with
         | H : ∀ n, is_Some (?m !! n) → _, H' : is_Some (?m !! _) |- _ =>
             specialize (H _ H')
         end; try lia.
Qed.

Lemma run_invariant (P : EventHub → Prop) inputs h :
  (∀ i h, P h → P (step i h).1.2) → P h → P (run h inputs).1.
Proof.
  intros Hstep. revert h. induction inputs as [|i inputs IH]; intros h Hh; [done|].
  rewrite HubFacts.run_cons. cbn [fst]. apply IH, Hstep, Hh.
Qed.

(** The invariants hold on a new hub, hence after every run. *)
Lemma run_invariants inputs :
  connection_inv (run new_EventHub inputs).1 ∧
  error_tables_inv (run new_EventHub inputs).1 ∧
  chaincode_inv (run new_EventHub inputs).1.
Proof.
  apply (run_invariant
           (fun h => connection_inv h ∧ error_tables_inv h ∧ chaincode_inv h));
    [apply step_invariants|].
  split; [|split].
  - unfold connection_inv. cbn. repeat split; try done.
    intros c Hc. by apply elem_of_nil in Hc.
  - split; intros k; cbn; rewrite lookup_empty; by intros [? [=]].
  - apply cc_table_inv_empty.
Qed.

Lemma run_block_keys_inv inputs h :
  block_registrant_count h + Z.of_nat (length inputs) ≤ 2 ^ 53 →
  block_keys_inv h → block_keys_inv (run h inputs).1.
Proof.
  revert h. induction inputs as [|i inputs IH]; intros h Hlen Hinv; [done|].
  rewrite HubFacts.run_cons. cbn [fst]. cbn [length] in Hlen.
  destruct (HubFacts.step_counter TxValidationCode HeaderType i h) as [Hc _].
  apply IH; [lia|]. apply step_block_keys_inv; [lia | done].
Qed.

(** Whatever calls and signals a new hub has seen: when it is marked
    connected it has a stream, when it has a stream it has a peer address,
    and its stream and armed timers are among the connections it opened. *)
Theorem reachable_hub_is_well_connected inputs :
  connection_inv (run new_EventHub inputs).1.
Proof.
  apply (run_invariants inputs).
Qed.


(** Whatever calls and signals a new hub has seen, no registrant set of its
    chaincode table is empty, every entry is filed under its own chaincode
    id, and the entries of a set are distinct objects. *)
Theorem reachable_chaincode_sets_are_well_formed inputs :
  chaincode_inv (run new_EventHub inputs).1.
Proof.
  apply (run_invariants inputs).
Qed.

(** Along a run of fewer than 2^53 inputs the block registration numbers in
    use lie between 1 and the counter, so the number the next registration
    hands out is in neither block table: no registration takes the place of
    another. *)
Theorem reachable_block_handles_are_fresh inputs :
  Z.of_nat (length inputs) < 2 ^ 53 →
  let h := (run new_EventHub inputs).1 in
  block_keys_inv h ∧
  blockOnEvents h !! block_registrant_count h = None ∧
  blockOnErrors h !! block_registrant_count h = None.
Proof.
  intros Hlen h.
  assert (Hkeys : block_keys_inv h).
  { apply run_block_keys_inv; [cbn; lia|].
    split; [done|]. intros n. cbn. rewrite lookup_empty. by intros [? [=]]. }
  assert (Herr : error_tables_inv h) by apply (run_invariants inputs).
  split; [done|].
  assert (HbE : blockOnEvents h !! block_registrant_count h = None).
  { destruct (blockOnEvents h !! block_registrant_count h) as [cb|] eqn:Hl; [|done].
    destruct Hkeys as [_ Hk]. specialize (Hk _ (mk_is_Some _ _ Hl)). lia. }
  split; [done|].
  destruct (blockOnErrors h !! block_registrant_count h) as [cb|] eqn:Hl; [|done].
  destruct Herr as [Hb _]. destruct (Hb _ (mk_is_Some _ _ Hl)) as [? Hsome].
  by rewrite HbE in Hsome.
Qed.

End Runs.

Lemma reachable_block_handles_are_fresh_witness :
  let inputs :=
    [ISetPeerAddr peer; IConnect;
     IRegisterBlockEvent ready (Some 1%nat) (Some 2%nat);
     IDisconnect;
     IRegisterBlockEvent ready (Some 3%nat) (Some 4%nat)] in
  let h := (Hub.run protos_TxValidationCode common_HeaderType new_EventHub inputs).1 in
  block_keys_inv h ∧
  blockOnEvents h !! block_registrant_count h = None ∧
  blockOnErrors h !! block_registrant_count h = None.
Proof.
  intros inputs.
  apply (reachable_block_handles_are_fresh protos_TxValidationCode common_HeaderType inputs).
  vm_compute. reflexivity.
Defined.

End RunLaws.
